(** * ATS: field evaluators and the coupled-cells preconditioner

    A shallow embedding of the parts of the ATS sources that the
    specification speaks about:

    - [WRMLinearRelPerm]  (wrm_linear_relperm.hh)
    - [MDM_Bear]          (MDM_Bear.hh)
    - [ThermalConductivityTwoPhaseEvaluator] and
      [ActiveLayerAverageTempEvaluator] (the evaluator sources)
    - [MPCCoupledCells]   (mpc_coupled_cells.cc)

    A C++ [double] is a binary64 number.  The code is written once over a
    small interface of arithmetic operations ([Scalar]) and read at two
    instances: Rocq's primitive binary64 floats, which is the arithmetic
    the program runs on, and the real numbers, the exact arithmetic the
    formulas are meant in. *)

From Stdlib Require Import Floats ZArith Reals Lra Lia String List Bool.
From stdpp Require Import gmap strings list fin_maps.

Local Open Scope string_scope.
Local Open Scope Z_scope.

(** ** Scalars *)

Class Scalar (T : Type) := {
  s_add : T -> T -> T;
  s_sub : T -> T -> T;
  s_mul : T -> T -> T;
  s_div : T -> T -> T;
  s_abs : T -> T;              (* std::abs *)
  s_eqb : T -> T -> bool;      (* == *)
  s_ltb : T -> T -> bool;      (* <  *)
  s_leb : T -> T -> bool;      (* <= *)
  s_of_int : Z -> T            (* conversion of an int to double *)
}.

Declare Scope dbl_scope.
Delimit Scope dbl_scope with dbl.
Infix "+" := s_add : dbl_scope.
Infix "-" := s_sub : dbl_scope.
Infix "*" := s_mul : dbl_scope.
Infix "/" := s_div : dbl_scope.
Notation "x == y" := (s_eqb x y) (at level 70, no associativity) : dbl_scope.
Notation "x != y" := (negb (s_eqb x y)) (at level 70, no associativity) : dbl_scope.
Notation "x < y" := (s_ltb x y) : dbl_scope.
Notation "x <= y" := (s_leb x y) : dbl_scope.
Notation "x >= y" := (s_leb y x) : dbl_scope.

(** The literals [0.0] and [1.0]. *)
Definition s_zero {T} `{Scalar T} : T := s_of_int 0.
Definition s_one {T} `{Scalar T} : T := s_of_int 1.

(** A decimal literal [m]e-[k], such as [273.15 = dec 27315 2].  Numerator
    and denominator are exact in binary64 and the division rounds
    correctly, so that at the binary64 instance this is the double the
    compiler reads the literal as (examples [lit_273_15] and the like
    below). *)
Definition dec {T} `{Scalar T} (m : Z) (k : Z) : T :=
  (s_of_int m / s_of_int (10 ^ k))%dbl.

(** binary64: the arithmetic of the program. *)
Definition float_of_int (z : Z) : float :=
  if z <? 0 then PrimFloat.opp (PrimFloat.of_uint63 (Uint63.of_Z (- z)))
  else PrimFloat.of_uint63 (Uint63.of_Z z).

#[export] Instance float_Scalar : Scalar float := {|
  s_add := PrimFloat.add;
  s_sub := PrimFloat.sub;
  s_mul := PrimFloat.mul;
  s_div := PrimFloat.div;
  s_abs := PrimFloat.abs;
  s_eqb := PrimFloat.eqb;
  s_ltb := PrimFloat.ltb;
  s_leb := PrimFloat.leb;
  s_of_int := float_of_int
|}.

(** The reals: exact arithmetic. *)
Definition Reqb (x y : R) : bool := if Req_dec_T x y then true else false.
Definition Rltb (x y : R) : bool := if Rlt_dec x y then true else false.
Definition Rleb (x y : R) : bool := if Rle_dec x y then true else false.

#[export] Instance R_Scalar : Scalar R := {|
  s_add := Rplus;
  s_sub := Rminus;
  s_mul := Rmult;
  s_div := Rdiv;
  s_abs := Rabs;
  s_eqb := Reqb;
  s_ltb := Rltb;
  s_leb := Rleb;
  s_of_int := IZR
|}.

(** ** Exceptions and the monad of a C++ method

    A method reads and writes the fields of its object and may throw; what
    it wrote before throwing stays written.  An access that C++ leaves
    undefined (outside an array, through a null pointer) ends the method
    like an exception. *)

Inductive Exception : Type :=
| Errors_Message (msg : string)            (* Errors::Message through Exceptions::amanzi_throw *)
| InvalidParameterName (name : string)     (* Teuchos: get<T> of an absent parameter *)
| InvalidParameterType (name : string)     (* Teuchos: entry of another type *)
| UnknownKeyError (key : string)           (* State: no field, evaluator or mesh of that name *)
| UnknownComponent (name : string)         (* CompositeVector: no such component *)
| AssertionFailure                         (* ASSERT(0) of dbc.hh *)
| OutOfBounds                              (* unchecked access outside an array:
                                              undefined in C++, here an outcome *)
| NullPointer.                             (* dereference of a null RCP *)

Inductive Outcome (A : Type) : Type :=
| Ok (a : A)
| Throw (e : Exception).
Arguments Ok {A} a.
Arguments Throw {A} e.

Definition M (St A : Type) : Type := St -> Outcome A * St.

Definition ret {St A} (a : A) : M St A := fun s => (Ok a, s).
Definition throw {St A} (e : Exception) : M St A := fun s => (Throw e, s).
Definition bind {St A B} (m : M St A) (f : A -> M St B) : M St B :=
  fun s => match m s with
           | (Ok a, s') => f a s'
           | (Throw e, s') => (Throw e, s')
           end.
Definition get {St} : M St St := fun s => (Ok s, s).
Definition modify {St} (f : St -> St) : M St unit := fun s => (Ok tt, f s).
Definition lift {St A} (o : Outcome A) : M St A := fun s => (o, s).

Declare Scope cxx_scope.
Delimit Scope cxx_scope with cxx.
Notation "x <- m ;; k" := (bind m (fun x => k))
  (at level 100, m at next level, right associativity) : cxx_scope.
Notation "m ;; k" := (bind m (fun _ => k))
  (at level 100, right associativity) : cxx_scope.

(** A loop over a container from [begin()] to [end()]. *)
Fixpoint for_each {St A} (l : list A) (body : A -> M St unit) : M St unit :=
  match l with
  | [] => ret tt
  | x :: l' => bind (body x) (fun _ => for_each l' body)
  end.

(** [c] takes every state to one related to it by [R], whether it returns
    or throws. *)
Definition stable {St A} (R : St -> St -> Prop) (c : M St A) : Prop :=
  forall s r s', c s = (r, s') -> R s s'.

(** ** Vectors and the State *)

(** Modelled from the spec: Field, CompositeVector and Epetra_MultiVector
    are not among the sources; section 3: a Field is a collection of named
    components ("cell", "face"), each a dense array of scalars indexed by
    the local id of the mesh entity.  An [Epetra_MultiVector] is the list
    of its vectors, each the values of the local entities. *)
Abbreviation Epetra_MultiVector T := (list (list T)).

(** A [CompositeVector]: named components ("cell", "face"). *)
Abbreviation CompositeVector T := (gmap string (list (list T))).

(** A [TreeVector] of the MPC: [SubVector(i)->Data()] for each sub-PK. *)
Abbreviation TreeVector T := (list (gmap string (list (list T)))).

(** [v.ViewComponent(name, false)] *)
Definition ViewComponent {T} (v : CompositeVector T) (name : string)
  : Outcome (Epetra_MultiVector T) :=
  match v !! name with
  | Some mv => Ok mv
  | None => Throw (UnknownComponent name)
  end.

(** [mv[j][i]] for an entity id [i] (an int). *)
Definition mv_at {T} (mv : Epetra_MultiVector T) (j : nat) (i : Z) : Outcome T :=
  if i <? 0 then Throw OutOfBounds
  else match mv !! j with
       | Some col => match col !! Z.to_nat i with
                     | Some x => Ok x
                     | None => Throw OutOfBounds
                     end
       | None => Throw OutOfBounds
       end.

(** [v(name, i)] of a CompositeVector: entry [i] of the first vector of the
    component. *)
Definition cv_at {T} (v : CompositeVector T) (name : string) (i : Z) : Outcome T :=
  match ViewComponent v name with
  | Ok mv => mv_at mv 0 i
  | Throw e => Throw e
  end.

(** Modelled from the spec: Epetra_MultiVector::Scale, which is not among
    the sources; section 4.4: the values are scaled by the factor, here
    [mv.Scale(a)] multiplies every value by [a]. *)
Definition Scale {T} `{Scalar T} (a : T) (mv : Epetra_MultiVector T)
  : Epetra_MultiVector T :=
  map (map (fun x => (a * x)%dbl)) mv.

(** The State: the fields by key and the current time. *)
Record State (T : Type) : Type := mkState {
  fields : gmap string (gmap string (list (list T)));
  time : T
}.
Arguments mkState {T} _ _.
Arguments fields {T} _.
Arguments time {T} _.

(** Modelled from the spec: State::GetFieldData, which is not among the
    sources; section 4.1: [getData(key)] fails with [UnknownKeyError] if
    the key was never required. *)
Definition GetFieldData {T} (S : State T) (key : string)
  : Outcome (CompositeVector T) :=
  match fields S !! key with
  | Some v => Ok v
  | None => Throw (UnknownKeyError key)
  end.

Definition SetFieldData {T} (S : State T) (key : string) (v : CompositeVector T)
  : State T :=
  mkState (<[key := v]> (fields S)) (time S).

(** Modelled from the spec: the ASSERT macro of dbc.hh, which is not among
    the sources; section 9 calls its use in the evaluators an explicit
    abort. *)
Definition ASSERT (b : bool) : Outcome unit :=
  if b then Ok tt else Throw AssertionFailure.

(** ** WRMLinearRelPerm *)

Module WRMLinearRelPerm.
Section WRM.
Context {T : Type} `{Scalar T}.

Definition k_relative (s : T) : T := s.
Definition d_k_relative (s : T) : T := s_one.
End WRM.
End WRMLinearRelPerm.

(** ** MDM_Bear *)

Module MDM_Bear.
Section MDM.
Context {T : Type} `{Scalar T}.

Record t : Type := mk { alphaL_ : T; alphaT_ : T }.

Definition is_valid (m : t) : bool :=
  (alphaL_ m + alphaT_ m != s_zero)%dbl.
End MDM.
Arguments t T : clear implicits.
End MDM_Bear.

(** ** ThermalConductivityTwoPhaseEvaluator *)

Module ThermalConductivityTwoPhaseEvaluator.
Section Evaluator.
Context {T : Type} `{Scalar T}.

Record t : Type := mk {
  my_key_ : string;
  poro_key_ : string;
  sat_key_ : string;
  tc_ : T -> T -> T          (* tc_->ThermalConductivity(poro, sat) *)
}.

(** [ASSERT(0); // not implemented, not yet needed] *)
Definition EvaluateFieldPartialDerivative_
    (e : t) (S : State T) (wrt_key : string) (result : CompositeVector T)
  : Outcome (CompositeVector T) :=
  match ASSERT false with
  | Ok _ => Ok result
  | Throw x => Throw x
  end.
End Evaluator.
Arguments t T : clear implicits.
End ThermalConductivityTwoPhaseEvaluator.

(** ** ActiveLayerAverageTempEvaluator *)

Module ActiveLayerAverageTempEvaluator.
Section Evaluator.
Context {T : Type} `{Scalar T}.

Record t : Type := mk {
  my_key_ : string;
  temp_key_ : string;
  trans_width_ : T;
  updated_once_ : bool;
  (* ghost: how many times EvaluateField_ has been run through
     UpdateField_ *)
  recomputations_ : nat
}.

Definition set_updated_once_ (b : bool) (e : t) : t :=
  mk (my_key_ e) (temp_key_ e) (trans_width_ e) b (recomputations_ e).
Definition count_recomputation (e : t) : t :=
  mk (my_key_ e) (temp_key_ e) (trans_width_ e) (updated_once_ e)
     (Datatypes.S (recomputations_ e)).

(** [273.15 + 0.5*trans_width_] *)
Definition trans_temp (e : t) : T :=
  (dec 27315 2 + dec 5 1 * trans_width_ e)%dbl.

(** One turn of the loop over the cells of the column: [temp_sum] and
    [count] after cell [x].  [count] is an int; it is at most the local
    length of the vector, which is an int as well, so it does not
    overflow. *)
Definition loop_body (tt_ : T) (acc : T * Z) (x : T) : T * Z :=
  if (x >= tt_)%dbl then ((fst acc + x)%dbl, snd acc + 1) else acc.

Definition sum_count (tt_ : T) (col : list T) : T * Z :=
  fold_left (loop_body tt_) col (s_zero, 0).

(** [count > 0 ? temp_sum/count : 0.0] *)
Definition column_average (tt_ : T) (col : list T) : T :=
  let '(temp_sum, count) := sum_count tt_ col in
  if 0 <? count then (temp_sum / s_of_int count)%dbl else s_zero.

(** [res_c[0][0] = v] *)
Definition write_0_0 (res_c : Epetra_MultiVector T) (v : T)
  : Outcome (Epetra_MultiVector T) :=
  match res_c with
  | (_ :: col) :: cols => Ok ((v :: col) :: cols)
  | _ => Throw OutOfBounds
  end.

Definition EvaluateField_ (e : t) (S : State T) (result : CompositeVector T)
  : Outcome (CompositeVector T) :=
  match ViewComponent result "cell" with
  | Throw x => Throw x
  | Ok res_c =>
    match GetFieldData S (temp_key_ e) with
    | Throw x => Throw x
    | Ok temp =>
      match ViewComponent temp "cell" with
      | Throw x => Throw x
      | Ok temp_c =>
        match temp_c !! 0%nat with
        | None => Throw OutOfBounds
        | Some col =>
          match write_0_0 res_c (column_average (trans_temp e) col) with
          | Throw x => Throw x
          | Ok res_c' => Ok (<["cell" := res_c']> result)
          end
        end
      end
    end
  end.

(** The body is empty. *)
Definition EvaluateFieldPartialDerivative_
    (e : t) (S : State T) (wrt_key : string) (result : CompositeVector T)
  : Outcome (CompositeVector T) :=
  Ok result.

(** Modelled from the spec: SecondaryVariableFieldEvaluator::UpdateField_,
    of the base class, which is not among the sources; section 4.2: the
    evaluator recomputes its output via [evaluate_(state, outputField)],
    the output being the Field of its own key. *)
Definition UpdateField_ : M (t * State T) unit :=
  fun es =>
    let e := fst es in
    let S := snd es in
    match GetFieldData S (my_key_ e) with
    | Throw x => (Throw x, (e, S))
    | Ok myfield =>
      match EvaluateField_ e S myfield with
      | Throw x => (Throw x, (count_recomputation e, S))
      | Ok r => (Ok tt, (count_recomputation e, SetFieldData S (my_key_ e) r))
      end
    end.

(** Modelled from the spec: SecondaryVariableFieldEvaluator::HasFieldChanged,
    of the base class, which is not among the sources; section 4.2: the
    evaluator asks every dependency; if any reports changed it recomputes
    its output and reports changed, otherwise it reports unchanged and
    does not recompute.  [deps_changed] are the answers of the evaluators
    of the dependencies. *)
Definition Secondary_HasFieldChanged (deps_changed : list bool)
    (request : string) : M (t * State T) bool :=
  if fold_left orb deps_changed false
  then (UpdateField_ ;; ret true)%cxx
  else ret false.

Definition HasFieldChanged (deps_changed : list bool) (request : string)
  : M (t * State T) bool :=
  (changed <- Secondary_HasFieldChanged deps_changed request ;;
   s <- get ;;
   if negb (updated_once_ (fst s)) then
     UpdateField_ ;;
     modify (fun s => (set_updated_once_ true (fst s), snd s)) ;;
     ret true
   else ret changed)%cxx.

(** What the specification calls the arithmetic mean of the values that
    meet the threshold. *)
Definition qualifying (tt_ : T) (col : list T) : list T :=
  filter (fun x => (x >= tt_)%dbl = true) col.

Definition sum_of (l : list T) : T := fold_left s_add l s_zero.

Definition mean_of (l : list T) : T :=
  (sum_of l / s_of_int (Z.of_nat (length l)))%dbl.



End Evaluator.
Arguments t T : clear implicits.
End ActiveLayerAverageTempEvaluator.

(** The evaluator variants of the sources and the dispatch of the virtual
    method. *)
Inductive FieldEvaluator (T : Type) : Type :=
| ThermalConductivityTwoPhase (e : ThermalConductivityTwoPhaseEvaluator.t T)
| ActiveLayerAverageTemp (e : ActiveLayerAverageTempEvaluator.t T).
Arguments ThermalConductivityTwoPhase {T} e.
Arguments ActiveLayerAverageTemp {T} e.

Definition EvaluateFieldPartialDerivative_ {T} `{Scalar T}
    (ev : FieldEvaluator T) (S : State T) (wrt_key : string)
    (result : CompositeVector T) : Outcome (CompositeVector T) :=
  match ev with
  | ThermalConductivityTwoPhase e =>
      ThermalConductivityTwoPhaseEvaluator.EvaluateFieldPartialDerivative_ e S wrt_key result
  | ActiveLayerAverageTemp e =>
      ActiveLayerAverageTempEvaluator.EvaluateFieldPartialDerivative_ e S wrt_key result
  end.

(** ** Teuchos: parameter lists and verbosity levels

    Modelled from the spec: Teuchos::ParameterList, which is not among the
    sources; sections 6 and 7: a hierarchical key-value configuration of
    scalars, arrays, booleans and nested sublists, whose options have
    defaults and whose missing or malformed required entries are errors. *)

Inductive ParameterEntry : Type :=
| PBool (b : bool)
| PInt (i : Z)
| PString (s : string)
| PArrayInt (a : list Z)                      (* Teuchos::Array<int> *)
| PSublist (l : gmap string ParameterEntry).

Abbreviation ParameterList := (gmap string ParameterEntry).

Definition isParameter (name : string) (pl : ParameterList) : bool :=
  match pl !! name with Some _ => true | None => false end.

Definition isSublist (name : string) (pl : ParameterList) : bool :=
  match pl !! name with Some (PSublist _) => true | _ => false end.

(** [pl.get<bool>(name, def)]: an absent parameter is set to the default. *)
Definition get_bool_default (name : string) (def : bool) : M ParameterList bool :=
  fun pl => match pl !! name with
            | None => (Ok def, <[name := PBool def]> pl)
            | Some (PBool b) => (Ok b, pl)
            | Some _ => (Throw (InvalidParameterType name), pl)
            end.

(** [pl.get<std::string>(name)] *)
Definition get_string (name : string) : M ParameterList string :=
  fun pl => match pl !! name with
            | None => (Throw (InvalidParameterName name), pl)
            | Some (PString s) => (Ok s, pl)
            | Some _ => (Throw (InvalidParameterType name), pl)
            end.

(** [pl.get<Teuchos::Array<int> >(name)] *)
Definition get_array_int (name : string) : M ParameterList (list Z) :=
  fun pl => match pl !! name with
            | None => (Throw (InvalidParameterName name), pl)
            | Some (PArrayInt a) => (Ok a, pl)
            | Some _ => (Throw (InvalidParameterType name), pl)
            end.

(** [pl.sublist(name)]: an absent sublist is created empty. *)
Definition sublist (name : string) : M ParameterList ParameterList :=
  fun pl => match pl !! name with
            | None => (Ok ∅, <[name := PSublist ∅]> pl)
            | Some (PSublist l) => (Ok l, pl)
            | Some _ => (Throw (InvalidParameterType name), pl)
            end.

(** The entry is of the type asked for, or not there. *)
Definition absent_or_bool (name : string) (pl : ParameterList) : bool :=
  match pl !! name with None | Some (PBool _) => true | Some _ => false end.

Definition absent_or_sublist (name : string) (pl : ParameterList) : bool :=
  match pl !! name with None | Some (PSublist _) => true | Some _ => false end.

(** [Teuchos::EVerbosityLevel] *)
Inductive EVerbosityLevel : Type :=
| VERB_DEFAULT | VERB_NONE | VERB_LOW | VERB_MEDIUM | VERB_HIGH | VERB_EXTREME.

(** A [VerboseObject], as made by [new VerboseObject(comm, name, plist)]. *)
Record VerboseObject : Type := new_VerboseObject {
  vo_name : string;
  vo_plist : ParameterList
}.

(** What is written to an output stream with [<<]. *)
Inductive LogItem (T : Type) : Type :=
| LStr (s : string)
| LInt (i : Z)
| LDouble (x : T)
| Lendl.
Arguments LStr {T} s.
Arguments LInt {T} i.
Arguments LDouble {T} x.
Arguments Lendl {T}.

(** [v.resize(n, x)] of a std::vector *)
Definition resize {A} (v : list A) (n : nat) (x : A) : list A :=
  take n v ++ replicate (n - length v) x.

(** ** The collaborators of the MPC

    The sub-PKs with their preconditioners, the mesh, the evaluators of the
    State, the coupled MFD matrix, the linear operator factory and the test
    of the verbosity level are not among the sources; the MPC is modelled
    over any of them.  The coupled
    matrix and the solver hold references to the preconditioners of the
    sub-PKs and to each other, so the operations that read through such a
    reference take what it points to. *)

Class Collaborators (T : Type) : Type := {
  Mesh : Type;
  SubPKs : Type;
  MatrixMFD : Type;
  MatrixMFD_Coupled : Type;
  LinearOperator : Type;
  (* S->GetMesh(key) *)
  GetMesh : State T -> string -> Outcome Mesh;
  (* S->GetFieldEvaluator(key)->HasFieldDerivativeChanged(S, request, wrt) *)
  HasFieldDerivativeChanged :
    string -> string -> string -> State T -> Outcome (bool * State T);
  (* mesh->cell_get_faces_and_dirs(c, &faces, &dirs) *)
  cell_get_faces_and_dirs : Mesh -> Z -> list Z * list Z;
  (* StrongMPC<PKPhysicalBDFBase>, the base class *)
  StrongMPC_setup : State T -> SubPKs -> Outcome (State T * SubPKs);
  StrongMPC_update_precon :
    T -> TreeVector T -> T -> State T -> SubPKs -> Outcome (State T * SubPKs);
  StrongMPC_precon :
    SubPKs -> TreeVector T -> TreeVector T -> Outcome (TreeVector T);
  (* sub_pks_[i]->preconditioner() *)
  preconditioner : SubPKs -> nat -> Outcome MatrixMFD;
  (* Operators::MatrixMFD_Coupled *)
  new_MatrixMFD_Coupled : ParameterList -> Mesh -> MatrixMFD_Coupled;
  SetSubBlocks : MatrixMFD -> MatrixMFD -> MatrixMFD_Coupled -> MatrixMFD_Coupled;
  SymbolicAssembleGlobalMatrices : MatrixMFD_Coupled -> Outcome MatrixMFD_Coupled;
  InitPreconditioner : MatrixMFD_Coupled -> Outcome MatrixMFD_Coupled;
  SetOffDiagonals :
    Epetra_MultiVector T -> Epetra_MultiVector T -> MatrixMFD_Coupled -> MatrixMFD_Coupled;
  ComputeSchurComplement :
    bool -> SubPKs -> MatrixMFD_Coupled -> Outcome MatrixMFD_Coupled;
  UpdatePreconditioner : SubPKs -> MatrixMFD_Coupled -> Outcome MatrixMFD_Coupled;
  ApplyInverse :
    SubPKs -> MatrixMFD_Coupled -> TreeVector T -> TreeVector T -> Outcome (TreeVector T);
  (* Teuchos::includesVerbLevel(verbLevel, requestedVerbLevel, isDefaultLevel) *)
  includesVerbLevel : EVerbosityLevel -> EVerbosityLevel -> bool -> bool;
  (* AmanziSolvers::LinearOperatorFactory *)
  Create : string -> ParameterList -> LinearOperator;
  LinearOperator_ApplyInverse :
    LinearOperator -> SubPKs -> MatrixMFD_Coupled ->
    TreeVector T -> TreeVector T -> Outcome (TreeVector T)
}.

(** ** MPCCoupledCells *)

Module MPCCoupledCells.

(** The calls the MPC makes to its collaborators. *)
Inductive Call (T : Type) : Type :=
| Call_HasFieldDerivativeChanged (key request wrt : string)
| Call_GetFieldData (key : string)
| Call_SetOffDiagonals (Ccc Dcc : Epetra_MultiVector T)
| Call_ComputeSchurComplement (dump : bool)
| Call_UpdatePreconditioner
| Call_ApplyInverse (u : TreeVector T).
Arguments Call_HasFieldDerivativeChanged {T} key request wrt.
Arguments Call_GetFieldData {T} key.
Arguments Call_SetOffDiagonals {T} Ccc Dcc.
Arguments Call_ComputeSchurComplement {T} dump.
Arguments Call_UpdatePreconditioner {T}.
Arguments Call_ApplyInverse {T} u.

(** [linsolve_preconditioner_] is either the very object
    [mfd_preconditioner_] points to, or a solver made by the factory that
    holds a reference to it. *)
Inductive LinSolve {T : Type} `{Collaborators T} : Type :=
| The_mfd_preconditioner
| Solver (op : LinearOperator).

Section MPC.
Context {T : Type} `{Scalar T} `{Collaborators T}.

Record t : Type := mk {
  plist_ : ParameterList;
  name_ : string;
  vo_ : VerboseObject;
  out_ : option (list (LogItem T));   (* null, or what has been written to the stream *)
  verbosity_ : EVerbosityLevel;
  S_next_ : State T;
  sub_pks_ : SubPKs;
  decoupled_ : bool;
  A_key_ : string;
  B_key_ : string;
  y1_key_ : string;
  y2_key_ : string;
  dA_dy2_key_ : string;
  dB_dy1_key_ : string;
  mesh_ : option Mesh;   (* null before setup *)
  dc_ : list Z;
  dcvo_ : list VerboseObject;
  mfd_preconditioner_ : option MatrixMFD_Coupled;   (* null before setup *)
  linsolve_preconditioner_ : option LinSolve;
  cout_ : list string;   (* ghost: what has been written to std::cout *)
  calls_ : list (Call T)   (* ghost: the calls made to the collaborators, in order *)
}.

Definition set_plist_ (v : ParameterList) (m : t) : t :=
  mk v (name_ m) (vo_ m) (out_ m) (verbosity_ m) (S_next_ m) (sub_pks_ m)
     (decoupled_ m) (A_key_ m) (B_key_ m) (y1_key_ m) (y2_key_ m)
     (dA_dy2_key_ m) (dB_dy1_key_ m) (mesh_ m) (dc_ m) (dcvo_ m)
     (mfd_preconditioner_ m) (linsolve_preconditioner_ m) (cout_ m)
     (calls_ m).
Definition set_out_ (v : option (list (LogItem T))) (m : t) : t :=
  mk (plist_ m) (name_ m) (vo_ m) v (verbosity_ m) (S_next_ m)
     (sub_pks_ m) (decoupled_ m) (A_key_ m) (B_key_ m) (y1_key_ m)
     (y2_key_ m) (dA_dy2_key_ m) (dB_dy1_key_ m) (mesh_ m) (dc_ m)
     (dcvo_ m) (mfd_preconditioner_ m) (linsolve_preconditioner_ m)
     (cout_ m) (calls_ m).
Definition set_S_next_ (v : State T) (m : t) : t :=
  mk (plist_ m) (name_ m) (vo_ m) (out_ m) (verbosity_ m) v (sub_pks_ m)
     (decoupled_ m) (A_key_ m) (B_key_ m) (y1_key_ m) (y2_key_ m)
     (dA_dy2_key_ m) (dB_dy1_key_ m) (mesh_ m) (dc_ m) (dcvo_ m)
     (mfd_preconditioner_ m) (linsolve_preconditioner_ m) (cout_ m)
     (calls_ m).
Definition set_sub_pks_ (v : SubPKs) (m : t) : t :=
  mk (plist_ m) (name_ m) (vo_ m) (out_ m) (verbosity_ m) (S_next_ m) v
     (decoupled_ m) (A_key_ m) (B_key_ m) (y1_key_ m) (y2_key_ m)
     (dA_dy2_key_ m) (dB_dy1_key_ m) (mesh_ m) (dc_ m) (dcvo_ m)
     (mfd_preconditioner_ m) (linsolve_preconditioner_ m) (cout_ m)
     (calls_ m).
Definition set_decoupled_ (v : bool) (m : t) : t :=
  mk (plist_ m) (name_ m) (vo_ m) (out_ m) (verbosity_ m) (S_next_ m)
     (sub_pks_ m) v (A_key_ m) (B_key_ m) (y1_key_ m) (y2_key_ m)
     (dA_dy2_key_ m) (dB_dy1_key_ m) (mesh_ m) (dc_ m) (dcvo_ m)
     (mfd_preconditioner_ m) (linsolve_preconditioner_ m) (cout_ m)
     (calls_ m).
Definition set_A_key_ (v : string) (m : t) : t :=
  mk (plist_ m) (name_ m) (vo_ m) (out_ m) (verbosity_ m) (S_next_ m)
     (sub_pks_ m) (decoupled_ m) v (B_key_ m) (y1_key_ m) (y2_key_ m)
     (dA_dy2_key_ m) (dB_dy1_key_ m) (mesh_ m) (dc_ m) (dcvo_ m)
     (mfd_preconditioner_ m) (linsolve_preconditioner_ m) (cout_ m)
     (calls_ m).
Definition set_B_key_ (v : string) (m : t) : t :=
  mk (plist_ m) (name_ m) (vo_ m) (out_ m) (verbosity_ m) (S_next_ m)
     (sub_pks_ m) (decoupled_ m) (A_key_ m) v (y1_key_ m) (y2_key_ m)
     (dA_dy2_key_ m) (dB_dy1_key_ m) (mesh_ m) (dc_ m) (dcvo_ m)
     (mfd_preconditioner_ m) (linsolve_preconditioner_ m) (cout_ m)
     (calls_ m).
Definition set_y1_key_ (v : string) (m : t) : t :=
  mk (plist_ m) (name_ m) (vo_ m) (out_ m) (verbosity_ m) (S_next_ m)
     (sub_pks_ m) (decoupled_ m) (A_key_ m) (B_key_ m) v (y2_key_ m)
     (dA_dy2_key_ m) (dB_dy1_key_ m) (mesh_ m) (dc_ m) (dcvo_ m)
     (mfd_preconditioner_ m) (linsolve_preconditioner_ m) (cout_ m)
     (calls_ m).
Definition set_y2_key_ (v : string) (m : t) : t :=
  mk (plist_ m) (name_ m) (vo_ m) (out_ m) (verbosity_ m) (S_next_ m)
     (sub_pks_ m) (decoupled_ m) (A_key_ m) (B_key_ m) (y1_key_ m) v
     (dA_dy2_key_ m) (dB_dy1_key_ m) (mesh_ m) (dc_ m) (dcvo_ m)
     (mfd_preconditioner_ m) (linsolve_preconditioner_ m) (cout_ m)
     (calls_ m).
Definition set_dA_dy2_key_ (v : string) (m : t) : t :=
  mk (plist_ m) (name_ m) (vo_ m) (out_ m) (verbosity_ m) (S_next_ m)
     (sub_pks_ m) (decoupled_ m) (A_key_ m) (B_key_ m) (y1_key_ m)
     (y2_key_ m) v (dB_dy1_key_ m) (mesh_ m) (dc_ m) (dcvo_ m)
     (mfd_preconditioner_ m) (linsolve_preconditioner_ m) (cout_ m)
     (calls_ m).
Definition set_dB_dy1_key_ (v : string) (m : t) : t :=
  mk (plist_ m) (name_ m) (vo_ m) (out_ m) (verbosity_ m) (S_next_ m)
     (sub_pks_ m) (decoupled_ m) (A_key_ m) (B_key_ m) (y1_key_ m)
     (y2_key_ m) (dA_dy2_key_ m) v (mesh_ m) (dc_ m) (dcvo_ m)
     (mfd_preconditioner_ m) (linsolve_preconditioner_ m) (cout_ m)
     (calls_ m).
Definition set_mesh_ (v : option Mesh) (m : t) : t :=
  mk (plist_ m) (name_ m) (vo_ m) (out_ m) (verbosity_ m) (S_next_ m)
     (sub_pks_ m) (decoupled_ m) (A_key_ m) (B_key_ m) (y1_key_ m)
     (y2_key_ m) (dA_dy2_key_ m) (dB_dy1_key_ m) v (dc_ m) (dcvo_ m)
     (mfd_preconditioner_ m) (linsolve_preconditioner_ m) (cout_ m)
     (calls_ m).
Definition set_dc_ (v : list Z) (m : t) : t :=
  mk (plist_ m) (name_ m) (vo_ m) (out_ m) (verbosity_ m) (S_next_ m)
     (sub_pks_ m) (decoupled_ m) (A_key_ m) (B_key_ m) (y1_key_ m)
     (y2_key_ m) (dA_dy2_key_ m) (dB_dy1_key_ m) (mesh_ m) v (dcvo_ m)
     (mfd_preconditioner_ m) (linsolve_preconditioner_ m) (cout_ m)
     (calls_ m).
Definition set_dcvo_ (v : list VerboseObject) (m : t) : t :=
  mk (plist_ m) (name_ m) (vo_ m) (out_ m) (verbosity_ m) (S_next_ m)
     (sub_pks_ m) (decoupled_ m) (A_key_ m) (B_key_ m) (y1_key_ m)
     (y2_key_ m) (dA_dy2_key_ m) (dB_dy1_key_ m) (mesh_ m) (dc_ m) v
     (mfd_preconditioner_ m) (linsolve_preconditioner_ m) (cout_ m)
     (calls_ m).
Definition set_mfd_preconditioner_ (v : option MatrixMFD_Coupled) (m : t) : t :=
  mk (plist_ m) (name_ m) (vo_ m) (out_ m) (verbosity_ m) (S_next_ m)
     (sub_pks_ m) (decoupled_ m) (A_key_ m) (B_key_ m) (y1_key_ m)
     (y2_key_ m) (dA_dy2_key_ m) (dB_dy1_key_ m) (mesh_ m) (dc_ m)
     (dcvo_ m) v (linsolve_preconditioner_ m) (cout_ m) (calls_ m).
Definition set_linsolve_preconditioner_ (v : option LinSolve) (m : t) : t :=
  mk (plist_ m) (name_ m) (vo_ m) (out_ m) (verbosity_ m) (S_next_ m)
     (sub_pks_ m) (decoupled_ m) (A_key_ m) (B_key_ m) (y1_key_ m)
     (y2_key_ m) (dA_dy2_key_ m) (dB_dy1_key_ m) (mesh_ m) (dc_ m)
     (dcvo_ m) (mfd_preconditioner_ m) v (cout_ m) (calls_ m).
Definition set_cout_ (v : list string) (m : t) : t :=
  mk (plist_ m) (name_ m) (vo_ m) (out_ m) (verbosity_ m) (S_next_ m)
     (sub_pks_ m) (decoupled_ m) (A_key_ m) (B_key_ m) (y1_key_ m)
     (y2_key_ m) (dA_dy2_key_ m) (dB_dy1_key_ m) (mesh_ m) (dc_ m)
     (dcvo_ m) (mfd_preconditioner_ m) (linsolve_preconditioner_ m) v
     (calls_ m).
Definition set_calls_ (v : list (Call T)) (m : t) : t :=
  mk (plist_ m) (name_ m) (vo_ m) (out_ m) (verbosity_ m) (S_next_ m)
     (sub_pks_ m) (decoupled_ m) (A_key_ m) (B_key_ m) (y1_key_ m)
     (y2_key_ m) (dA_dy2_key_ m) (dB_dy1_key_ m) (mesh_ m) (dc_ m)
     (dcvo_ m) (mfd_preconditioner_ m) (linsolve_preconditioner_ m)
     (cout_ m) v.

Definition on_plist {A} (c : M ParameterList A) : M t A :=
  fun m => let '(r, pl) := c (plist_ m) in (r, set_plist_ pl m).

Definition record (c : Call T) : M t unit :=
  modify (fun m => set_calls_ (calls_ m ++ [c])%list m).

(** [*out_ << ...] *)
Definition print (items : list (LogItem T)) : M t unit :=
  fun m => match out_ m with
           | Some o => (Ok tt, set_out_ (Some (o ++ items)%list) m)
           | None => (Throw NullPointer, m)
           end.

(** [out_.get() && includesVerbLevel(verbosity_, level, true)] *)
Definition verbose_at (level : EVerbosityLevel) (m : t) : bool :=
  match out_ m with
  | Some _ => includesVerbLevel (verbosity_ m) level true
  | None => false
  end.

(** [S_next_->GetFieldData(key)] *)
Definition S_next_GetFieldData (key : string) : M t (CompositeVector T) :=
  (record (Call_GetFieldData key) ;;
   m <- get ;;
   lift (GetFieldData (S_next_ m) key))%cxx.

(** [S_next_->GetFieldEvaluator(key)->HasFieldDerivativeChanged(S_next_.ptr(), name_, wrt)] *)
Definition S_next_HasFieldDerivativeChanged (key wrt : string) : M t bool :=
  fun m =>
    let m := set_calls_
               (calls_ m ++ [Call_HasFieldDerivativeChanged key (name_ m) wrt])%list m in
    match HasFieldDerivativeChanged key (name_ m) wrt (S_next_ m) with
    | Ok (b, S') => (Ok b, set_S_next_ S' m)
    | Throw e => (Throw e, m)
    end.

(** A method of [*mfd_preconditioner_] that changes the matrix. *)
Definition on_mfd (f : MatrixMFD_Coupled -> Outcome MatrixMFD_Coupled) : M t unit :=
  fun m => match mfd_preconditioner_ m with
           | None => (Throw NullPointer, m)
           | Some pc =>
             match f pc with
             | Ok pc' => (Ok tt, set_mfd_preconditioner_ (Some pc') m)
             | Throw e => (Throw e, m)
             end
           end.

Definition the_mesh : M t Mesh :=
  fun m => match mesh_ m with
           | Some mesh => (Ok mesh, m)
           | None => (Throw NullPointer, m)
           end.

Definition debug_length_message : string :=
  "Debug cell and debug cell ranks must be equal length.".

(** Lines 82-93 of setup: a verbose object for one entry of the ranks. *)
Definition make_debug_verbose_object (dcr : Z) : M t unit :=
  (vo_sub <- on_plist (sublist "VerboseObject") ;;
   let vo_plist : ParameterList :=
     {[ "VerboseObject" := PSublist (<["write on rank" := PInt dcr]> vo_sub) ]} in
   _ <- the_mesh ;;
   modify (fun m =>
     set_dcvo_ (dcvo_ m ++ [new_VerboseObject (name_ m) vo_plist])%list m))%cxx.

(** [dc_.push_back(c)] *)
Definition dc_push_back (c : Z) : M t unit :=
  modify (fun m => set_dc_ (dc_ m ++ [c])%list m).

(** Lines 69-98 of setup: the cells to debug. *)
Definition setup_debug_cells : M t unit :=
  (m <- get ;;
   if isParameter "debug cells" (plist_ m) then
     modify (set_dc_ []) ;;
     dc <- on_plist (get_array_int "debug cells") ;;
     for_each dc dc_push_back ;;
     m <- get ;;
     if isParameter "debug cell ranks" (plist_ m) then
       dc_ranks <- on_plist (get_array_int "debug cell ranks") ;;
       (if negb (length dc =? length dc_ranks)%nat
        then throw (Errors_Message debug_length_message)
        else ret tt) ;;
       for_each dc_ranks make_debug_verbose_object
     else
       modify (fun m => set_dcvo_ (resize (dcvo_ m) (length (dc_ m)) (vo_ m)) m)
   else ret tt)%cxx.

(** Lines 100-121 of setup: the coupled preconditioner and its solver. *)
Definition setup_precon : M t unit :=
  (pc_sublist <- on_plist (sublist "Coupled PC") ;;
   mesh <- the_mesh ;;
   modify (set_mfd_preconditioner_ (Some (new_MatrixMFD_Coupled pc_sublist mesh))) ;;
   m <- get ;;
   pcA <- lift (preconditioner (sub_pks_ m) 0) ;;
   pcB <- lift (preconditioner (sub_pks_ m) 1) ;;
   on_mfd (fun pc => Ok (SetSubBlocks pcA pcB pc)) ;;
   on_mfd SymbolicAssembleGlobalMatrices ;;
   on_mfd InitPreconditioner ;;
   m <- get ;;
   if isSublist "Coupled Solver" (plist_ m) then
     linsolve_sublist <- on_plist (sublist "Coupled Solver") ;;
     modify (set_linsolve_preconditioner_
               (Some (Solver (Create "coupled solver" linsolve_sublist))))
   else
     modify (set_linsolve_preconditioner_ (Some The_mfd_preconditioner)))%cxx.

(** [StrongMPC<PKPhysicalBDFBase>::setup(S)] *)
Definition base_setup (S : State T) : M t (State T) :=
  fun m => match StrongMPC_setup S (sub_pks_ m) with
           | Ok (S', pks) => (Ok S', set_sub_pks_ pks m)
           | Throw e => (Throw e, m)
           end.

(** Lines 56-66 of setup: the keys and the mesh. *)
Definition setup_keys (S : State T) : M t unit :=
  (d <- on_plist (get_bool_default "decoupled" false) ;;
   modify (set_decoupled_ d) ;;
   a <- on_plist (get_string "conserved quantity A") ;;
   modify (set_A_key_ a) ;;
   b <- on_plist (get_string "conserved quantity B") ;;
   modify (set_B_key_ b) ;;
   y1 <- on_plist (get_string "primary variable A") ;;
   modify (set_y1_key_ y1) ;;
   y2 <- on_plist (get_string "primary variable B") ;;
   modify (set_y2_key_ y2) ;;
   modify (fun m => set_dA_dy2_key_ ("d" ++ A_key_ m ++ "_d" ++ y2_key_ m) m) ;;
   modify (fun m => set_dB_dy1_key_ ("d" ++ B_key_ m ++ "_d" ++ y1_key_ m) m) ;;
   mesh_key <- on_plist (get_string "mesh key") ;;
   mesh <- lift (GetMesh S mesh_key) ;;
   modify (set_mesh_ (Some mesh)))%cxx.

(** [MPCCoupledCells::setup(S)]; the State is passed by pointer and the
    result is what it holds afterwards. *)
Definition setup (S : State T) : M t (State T) :=
  (S' <- base_setup S ;;
   setup_keys S' ;;
   setup_debug_cells ;;
   setup_precon ;;
   ret S')%cxx.

(** [StrongMPC<PKPhysicalBDFBase>::update_precon(t, up, h)] *)
Definition base_update_precon (t_ : T) (up : TreeVector T) (h : T) : M t unit :=
  fun m => match StrongMPC_update_precon t_ up h (S_next_ m) (sub_pks_ m) with
           | Ok (S', pks) => (Ok tt, set_sub_pks_ pks (set_S_next_ S' m))
           | Throw e => (Throw e, m)
           end.

(** Lines 152-160 of update_precon: the four values of one debug cell. *)
Definition print_derivatives (Ccc Dcc dsi_dp dsi_dT : Epetra_MultiVector T)
    (c0 : Z) : M t unit :=
  (x <- lift (mv_at Ccc 0 c0) ;;
   print [LStr "    dwc_dT("; LInt c0; LStr "): "; LDouble x; Lendl] ;;
   x <- lift (mv_at Dcc 0 c0) ;;
   print [LStr "    de_dp("; LInt c0; LStr "): "; LDouble x; Lendl] ;;
   x <- lift (mv_at dsi_dp 0 c0) ;;
   print [LStr "       dsi_dp("; LInt c0; LStr "): "; LDouble x; Lendl] ;;
   x <- lift (mv_at dsi_dT 0 c0) ;;
   print [LStr "       dsi_dT("; LInt c0; LStr "): "; LDouble x; Lendl] ;;
   print [LStr "    --"; Lendl])%cxx.

(** Lines 148-161 of update_precon. *)
Definition update_precon_diagnostics (Ccc Dcc : Epetra_MultiVector T) : M t unit :=
  (m <- get ;;
   if verbose_at VERB_EXTREME m then
     f <- S_next_GetFieldData "dsaturation_ice_dpressure" ;;
     dsi_dp <- lift (ViewComponent f "cell") ;;
     f <- S_next_GetFieldData "dsaturation_ice_dtemperature" ;;
     dsi_dT <- lift (ViewComponent f "cell") ;;
     for_each (dc_ m) (print_derivatives Ccc Dcc dsi_dp dsi_dT)
   else ret tt)%cxx.

(** [std::abs(S_next_->time() - 3.04746e+07) < 68690.3] *)
Definition in_dump_window (S : State T) : bool :=
  (s_abs (time S - s_of_int 30474600) < dec 686903 1)%dbl.

(** Lines 131-179 of update_precon: the off-diagonal terms.
    [ComputeSchurComplement()] without an argument is taken to be
    [ComputeSchurComplement(false)]. *)
Definition update_off_diagonals (h : T) : M t unit :=
  (m <- get ;;
   S_next_HasFieldDerivativeChanged (A_key_ m) (y2_key_ m) ;;
   S_next_HasFieldDerivativeChanged (B_key_ m) (y1_key_ m) ;;
   dA_dy2 <- S_next_GetFieldData (dA_dy2_key_ m) ;;
   dB_dy1 <- S_next_GetFieldData (dB_dy1_key_ m) ;;
   Ccc <- lift (ViewComponent dA_dy2 "cell") ;;
   Dcc <- lift (ViewComponent dB_dy1 "cell") ;;
   update_precon_diagnostics Ccc Dcc ;;
   let Ccc := Scale (s_one / h)%dbl Ccc in
   let Dcc := Scale (s_one / h)%dbl Dcc in
   record (Call_SetOffDiagonals Ccc Dcc) ;;
   on_mfd (fun pc => Ok (SetOffDiagonals Ccc Dcc pc)) ;;
   m <- get ;;
   (if in_dump_window (S_next_ m) then
      modify (fun m => set_cout_ (cout_ m ++ ["DUMPING SCHUR!"])%list m) ;;
      record (Call_ComputeSchurComplement true) ;;
      on_mfd (ComputeSchurComplement true (sub_pks_ m))
    else
      record (Call_ComputeSchurComplement false) ;;
      on_mfd (ComputeSchurComplement false (sub_pks_ m))) ;;
   record Call_UpdatePreconditioner ;;
   on_mfd (UpdatePreconditioner (sub_pks_ m)))%cxx.

(** [MPCCoupledCells::update_precon(t, up, h)] *)
Definition update_precon (t_ : T) (up : TreeVector T) (h : T) : M t unit :=
  (base_update_precon t_ up h ;;
   m <- get ;;
   if negb (decoupled_ m) then update_off_diagonals h else ret tt)%cxx.

(** Entry [j] of component [name] of [v->SubVector(i)->Data()]. *)
Definition tv_at (v : TreeVector T) (i : nat) (name : string) (j : Z) : Outcome T :=
  match v !! i with
  | Some data => cv_at data name j
  | None => Throw NullPointer
  end.

(** One line of the output of precon: the cell value of sub-vector [i]
    and the values on the faces of the cell. *)
Definition print_cell_and_faces (label : string) (v : TreeVector T) (i : nat)
    (c0 : Z) (fnums0 : list Z) : M t unit :=
  (x <- lift (tv_at v i "cell" c0) ;;
   print [LStr label; LInt c0; LStr "): "; LDouble x] ;;
   for_each fnums0 (fun f =>
     x <- lift (tv_at v i "face" f) ;;
     print [LStr ",  "; LDouble x]) ;;
   print [Lendl])%cxx.

(** Lines 190-207 and 214-231 of precon, for one debug cell. *)
Definition print_vector (title p_label T_label : string) (v : TreeVector T)
    (c0 : Z) : M t unit :=
  (mesh <- the_mesh ;;
   let fnums0 := fst (cell_get_faces_and_dirs mesh c0) in
   print [LStr title; Lendl] ;;
   print_cell_and_faces p_label v 0 c0 fnums0 ;;
   print_cell_and_faces T_label v 1 c0 fnums0)%cxx.

(** [linsolve_preconditioner_->ApplyInverse] on [u] and [Pu]. *)
Definition linsolve_ApplyInverse (u Pu : TreeVector T) : M t (TreeVector T) :=
  (record (Call_ApplyInverse u) ;;
   m <- get ;;
   match linsolve_preconditioner_ m, mfd_preconditioner_ m with
   | Some The_mfd_preconditioner, Some pc =>
       lift (ApplyInverse (sub_pks_ m) pc u Pu)
   | Some (Solver op), Some pc =>
       lift (LinearOperator_ApplyInverse op (sub_pks_ m) pc u Pu)
   | _, _ => throw NullPointer
   end)%cxx.

(** [MPCCoupledCells::precon(u, Pu)]; the result is what [Pu] holds
    afterwards. *)
Definition precon (u Pu : TreeVector T) : M t (TreeVector T) :=
  (m <- get ;;
   if decoupled_ m then lift (StrongMPC_precon (sub_pks_ m) u Pu)
   else
     (if verbose_at VERB_HIGH m
      then for_each (dc_ m) (print_vector "Residuals:" "  p(" "  T(" u)
      else ret tt) ;;
     Pu' <- linsolve_ApplyInverse u Pu ;;
     (if verbose_at VERB_HIGH m
      then for_each (dc_ m)
             (print_vector "Preconditioned Updates:" "  Pp(" "  PT(" Pu')
      else ret tt) ;;
     ret Pu')%cxx.

(** The numerical results of a call: whether it threw, the coupled
    matrix, the off-diagonal blocks handed to it and, for precon, the
    correction. *)
Definition installed_blocks (m : t)
  : list (Epetra_MultiVector T * Epetra_MultiVector T) :=
  omap (fun c => match c with
                 | Call_SetOffDiagonals Ccc Dcc => Some (Ccc, Dcc)
                 | _ => None
                 end) (calls_ m).

(** [m'] comes from [m] by calls that all satisfy [P], with the State
    untouched. *)
Definition extends (P : Call T -> Prop) (m m' : t) : Prop :=
  S_next_ m' = S_next_ m /\
  exists cs, calls_ m' = (calls_ m ++ cs)%list /\ Forall P cs.

Definition not_SetOffDiagonals (c : Call T) : Prop :=
  forall Ccc Dcc, c <> Call_SetOffDiagonals Ccc Dcc.

(** The keys set by setup. *)
Definition keys (m : t) : string * string * string * string * string * string :=
  (A_key_ m, B_key_ m, y1_key_ m, y2_key_ m, dA_dy2_key_ m, dB_dy1_key_ m).

Definition same_keys (m m' : t) : Prop := keys m' = keys m.

Definition numerical_results {A} (r : Outcome A * t)
  : Outcome A * option MatrixMFD_Coupled
    * list (Epetra_MultiVector T * Epetra_MultiVector T) :=
  (fst r, mfd_preconditioner_ (snd r), installed_blocks (snd r)).

End MPC.
End MPCCoupledCells.

(** ** The scenario of section 8 of the specification

    Two coupled fields on three cells: A is the water content with primary
    variable pressure, B the energy with primary variable temperature; the
    coupling derivatives are uniformly 0.1 and 0.2.  The collaborators are
    the simplest ones: the evaluators leave the State as it is, the
    sub-PKs and the solver return the residual unchanged, the coupled
    matrix keeps the off-diagonal blocks it was given last, and a verbosity
    level includes the levels below it. *)

Module Scenario.

Definition verb_as_int (v : EVerbosityLevel) : Z :=
  match v with
  | VERB_DEFAULT => -1
  | VERB_NONE => 0
  | VERB_LOW => 1
  | VERB_MEDIUM => 2
  | VERB_HIGH => 3
  | VERB_EXTREME => 4
  end.

#[export] Instance collaborators : Collaborators float := {|
  Mesh := unit;
  SubPKs := unit;
  MatrixMFD := nat;
  MatrixMFD_Coupled := option (list (list float) * list (list float));
  LinearOperator := unit;
  GetMesh := fun _ key =>
    if decide (key = "domain") then Ok tt else Throw (UnknownKeyError key);
  HasFieldDerivativeChanged := fun _ _ _ S => Ok (true, S);
  cell_get_faces_and_dirs := fun _ c => ([c; c + 1], [1; -1]);
  StrongMPC_setup := fun S pks => Ok (S, pks);
  StrongMPC_update_precon := fun _ _ _ S pks => Ok (S, pks);
  StrongMPC_precon := fun _ u _ => Ok u;
  preconditioner := fun _ i => Ok i;
  new_MatrixMFD_Coupled := fun _ _ => None;
  SetSubBlocks := fun _ _ pc => pc;
  SymbolicAssembleGlobalMatrices := fun pc => Ok pc;
  InitPreconditioner := fun pc => Ok pc;
  SetOffDiagonals := fun Ccc Dcc _ => Some (Ccc, Dcc);
  ComputeSchurComplement := fun _ _ pc => Ok pc;
  UpdatePreconditioner := fun _ pc => Ok pc;
  ApplyInverse := fun _ _ u _ => Ok u;
  includesVerbLevel := fun verbLevel requestedVerbLevel isDefaultLevel =>
    (verb_as_int requestedVerbLevel <=? verb_as_int verbLevel)
    || (match verbLevel with VERB_DEFAULT => isDefaultLevel | _ => false end);
  Create := fun _ _ => tt;
  LinearOperator_ApplyInverse := fun _ _ _ u _ => Ok u
|}.

Definition uniform (x : float) : CompositeVector float :=
  {[ "cell" := [[x; x; x]] ]}.

(** The State with the two coupling derivatives and nothing else. *)
Definition S0 : State float :=
  mkState {[ "dwater_content_dtemperature" := uniform 0.1%float;
             "denergy_dpressure" := uniform 0.2%float ]} 0%float.

(** The same with the derivatives of the ice saturation. *)
Definition S_ice : State float :=
  mkState (<[ "dsaturation_ice_dpressure" := uniform 0%float ]>
           (<[ "dsaturation_ice_dtemperature" := uniform 0%float ]> (fields S0)))
          0%float.

Definition plist (ranks : list Z) : ParameterList :=
  {[ "conserved quantity A" := PString "water_content";
     "conserved quantity B" := PString "energy";
     "primary variable A" := PString "pressure";
     "primary variable B" := PString "temperature";
     "mesh key" := PString "domain";
     "debug cells" := PArrayInt [0; 2];
     "debug cell ranks" := PArrayInt ranks ]}.

(** The MPC as constructed: nothing set up yet, [decoupled_] false. *)
Definition constructed (pl : ParameterList) (out : option (list (LogItem float)))
    (verbosity : EVerbosityLevel) (S : State float) : MPCCoupledCells.t :=
  MPCCoupledCells.mk pl "mpc" (new_VerboseObject "mpc" ∅) out verbosity S tt
    false "" "" "" "" "" "" None [] [] None None [] [].

(** The MPC after setup, with a diagnostics stream or without. *)
Definition ready (out : option (list (LogItem float)))
    (verbosity : EVerbosityLevel) (S : State float) : MPCCoupledCells.t :=
  snd (MPCCoupledCells.setup S (constructed (plist [0; 0]) out verbosity S)).

(** The residual (1,0,0,1,0,0) on the cells, zero on the faces. *)
Definition residual : TreeVector float :=
  [ {[ "cell" := [[1; 0; 0]]; "face" := [[0; 0; 0; 0]] ]};
    {[ "cell" := [[1; 0; 0]]; "face" := [[0; 0; 0; 0]] ]} ]%float.

(** A column of temperatures below the threshold and one that reaches it,
    for the column average. *)
Definition evaluator : ActiveLayerAverageTempEvaluator.t float :=
  ActiveLayerAverageTempEvaluator.mk
    "surface_star-temperature" "column_0-temperature" 0.2%float false 0.

Definition column_state (col : list float) : State float :=
  mkState {[ "surface_star-temperature" := {[ "cell" := [[1%float]] ]};
             "column_0-temperature" := {[ "cell" := [col] ]} ]} 0%float.

Definition frozen : list float := [270; 271.5; 273]%float.
Definition thawed : list float := [270; 274; 276]%float.

End Scenario.

(** * Theorems *)

(** ** The literals at binary64 *)

Example lit_273_15 : dec 27315 2 = 273.15%float.
Proof. reflexivity. Qed.

Example lit_0_5 : dec 5 1 = 0.5%float.
Proof. reflexivity. Qed.

Example lit_68690_3 : dec 686903 1 = 68690.3%float.
Proof. reflexivity. Qed.

Example lit_3_04746e7 : s_of_int 30474600 = 3.04746e+07%float.
Proof. reflexivity. Qed.

Example lit_zero_one : (s_zero, s_one) = (0%float, 1%float).
Proof. reflexivity. Qed.

(** ** The column average *)

Section ColumnAverage.
Import ActiveLayerAverageTempEvaluator.
Context {T : Type} `{Scalar T}.

Lemma loop_from (tt_ : T) (col : list T) (a : T) (n : Z) :
  fold_left (loop_body tt_) col (a, n)
  = (fold_left s_add (qualifying tt_ col) a,
     n + Z.of_nat (length (qualifying tt_ col))).
Proof.
  revert a n. induction col as [|x col IH]; intros a n.
  - cbn. f_equal. lia.
  - cbn [fold_left]. unfold loop_body at 2, qualifying.
    destruct (x >= tt_)%dbl eqn:E.
    + rewrite filter_cons_True by exact E. cbn [fst snd fold_left length].
      rewrite IH. unfold qualifying. f_equal. lia.
    + rewrite filter_cons_False by (rewrite E; discriminate).
      apply IH.
Qed.

Lemma sum_count_qualifying (tt_ : T) (col : list T) :
  sum_count tt_ col
  = (sum_of (qualifying tt_ col), Z.of_nat (length (qualifying tt_ col))).
Proof. unfold sum_count. rewrite loop_from. reflexivity. Qed.

Lemma qualifying_nil (tt_ : T) (col : list T) :
  Forall (fun x => (x >= tt_)%dbl = false) col -> qualifying tt_ col = [].
Proof.
  induction 1 as [|x col Hx _ IH]; [reflexivity|].
  unfold qualifying. rewrite filter_cons_False by (rewrite Hx; discriminate).
  exact IH.
Qed.

Lemma qualifying_not_nil (tt_ : T) (col : list T) :
  Exists (fun x => (x >= tt_)%dbl = true) col -> qualifying tt_ col <> [].
Proof.
  induction 1 as [x col Hx|x col _ IH]; unfold qualifying.
  - rewrite filter_cons_True by exact Hx. discriminate.
  - destruct (x >= tt_)%dbl eqn:E.
    + rewrite filter_cons_True by exact E. discriminate.
    + rewrite filter_cons_False by (rewrite E; discriminate). exact IH.
Qed.

Lemma column_average_empty (tt_ : T) (col : list T) :
  qualifying tt_ col = [] -> column_average tt_ col = s_zero.
Proof.
  intros E. unfold column_average. rewrite sum_count_qualifying, E. reflexivity.
Qed.

Lemma column_average_mean (tt_ : T) (col : list T) :
  qualifying tt_ col <> [] ->
  column_average tt_ col = mean_of (qualifying tt_ col).
Proof.
  intros E. unfold column_average. rewrite sum_count_qualifying.
  destruct (qualifying tt_ col) as [|x q]; [congruence|].
  replace (0 <? Z.of_nat (length (x :: q))) with true; [reflexivity|].
  symmetry. apply Z.ltb_lt. cbn [length]. lia.
Qed.

Lemma EvaluateField_writes (e : t T) (S : State T) (result : CompositeVector T)
    (r0 : T) (rest : list T) (cols : list (list T))
    (temp : CompositeVector T) (col : list T) (cols_t : list (list T)) :
  result !! "cell" = Some ((r0 :: rest) :: cols) ->
  fields S !! temp_key_ e = Some temp ->
  temp !! "cell" = Some (col :: cols_t) ->
  EvaluateField_ e S result
  = Ok (<["cell" := (column_average (trans_temp e) col :: rest) :: cols]> result).
Proof.
  intros Hres Htemp Hcell. unfold EvaluateField_, ViewComponent, GetFieldData.
  rewrite Hres, Htemp, Hcell. reflexivity.
Qed.
End ColumnAverage.

(** ** binary64: cancellation of opposite finite numbers *)

Lemma SFeqb_finite_inv s m e y :
  SFeqb (S754_finite s m e) y = true -> y = S754_finite s m e.
Proof.
  unfold SFeqb, SFcompare. destruct y as [sy| sy | |sy my ey]; try (destruct s; discriminate); try (destruct sy; discriminate).
  destruct s, sy; try discriminate.
  - destruct (e ?= ey) eqn:E; try discriminate.
    apply Z.compare_eq in E. subst ey.
    destruct (PosDef.Pos.compare_cont Eq m my) eqn:E2; try discriminate.
    apply Pos.compare_eq in E2. now subst.
  - destruct (e ?= ey) eqn:E; try discriminate.
    apply Z.compare_eq in E. subst ey.
    destruct (PosDef.Pos.compare_cont Eq m my) eqn:E2; try discriminate.
    apply Pos.compare_eq in E2. now subst.
Qed.

Lemma SFadd_opp_finite s m e :
  SFadd prec emax (S754_finite s m e) (S754_finite (negb s) m e) = S754_zero false.
Proof.
  unfold SFadd. rewrite Z.min_id. unfold shl_align. rewrite Z.sub_diag. cbn [fst].
  replace (cond_Zopp s (Z.pos m) + cond_Zopp (negb s) (Z.pos m)) with 0
    by (destruct s; cbn; lia).
  reflexivity.
Qed.

Lemma float_add_cancels (x y : float) :
  PrimFloat.is_finite x = true ->
  PrimFloat.eqb x (PrimFloat.opp y) = true ->
  PrimFloat.eqb x 0 = false ->
  PrimFloat.eqb (PrimFloat.add x y) 0 = true.
Proof.
  unfold PrimFloat.is_finite, PrimFloat.is_nan, PrimFloat.is_infinity.
  rewrite !FloatAxioms.eqb_spec, FloatAxioms.abs_spec, FloatAxioms.opp_spec, FloatAxioms.add_spec.
  change (Prim2SF 0) with (S754_zero false).
  change (Prim2SF infinity) with (S754_infinity false).
  destruct (Prim2SF x) as [sx|sx| |sx mx ex] eqn:Ex; intros Hfin Heq Hnz.
  - cbv in Hnz. discriminate.
  - destruct sx; cbv in Hfin; discriminate.
  - cbv in Hfin. discriminate.
  - apply SFeqb_finite_inv in Heq.
    destruct (Prim2SF y) as [sy|sy| |sy my ey] eqn:Ey; cbn in Heq; try discriminate.
    injection Heq as <- <- <-.
    unfold SF64add.
    pose proof (SFadd_opp_finite (negb sy) my ey) as E.
    rewrite negb_involutive in E. rewrite E. reflexivity.
Qed.

(** ** The evaluators *)

Section Evaluators.
Import ActiveLayerAverageTempEvaluator.
Context {T : Type} `{Scalar T}.




Lemma some_dependency_changed (deps_changed : list bool) :
  fold_left orb deps_changed true = true.
Proof. induction deps_changed as [|b l IH]; [reflexivity|exact IH]. Qed.
End Evaluators.

(** C3 (the code at the failing input): the thermal conductivity evaluator
    aborts when asked for a derivative, but the active-layer average
    temperature evaluator, which has no derivative either, returns normally
    and leaves the Field as it was. *)
Theorem derivative_of_column_average_is_silent
    (e1 : ThermalConductivityTwoPhaseEvaluator.t float)
    (e2 : ActiveLayerAverageTempEvaluator.t float)
    (S : State float) (wrt_key : string) (result : CompositeVector float) :
  EvaluateFieldPartialDerivative_ (ThermalConductivityTwoPhase e1) S wrt_key result
    = Throw AssertionFailure
  /\ EvaluateFieldPartialDerivative_ (ActiveLayerAverageTemp e2) S wrt_key result
    = Ok result.
Proof. split; reflexivity. Qed.

(** C4: when no cell of the column has a temperature at or above the
    transition temperature, EvaluateField_ writes exactly 0.0, which is not
    NaN, into cell 0 of its result; when some cell has, it writes the mean
    of the temperatures that qualify. *)
Theorem EvaluateField_column_average
    (e : ActiveLayerAverageTempEvaluator.t float) (S : State float)
    (result : CompositeVector float) (r0 : float) (rest : list float)
    (cols : list (list float)) (temp : CompositeVector float)
    (col : list float) (cols_t : list (list float)) :
  let tt_ := ActiveLayerAverageTempEvaluator.trans_temp e in
  result !! "cell" = Some ((r0 :: rest) :: cols) ->
  fields S !! ActiveLayerAverageTempEvaluator.temp_key_ e = Some temp ->
  temp !! "cell" = Some (col :: cols_t) ->
  (Forall (fun x => (x >= tt_)%dbl = false) col ->
   ActiveLayerAverageTempEvaluator.EvaluateField_ e S result
     = Ok (<["cell" := (0%float :: rest) :: cols]> result)
   /\ PrimFloat.is_nan 0%float = false)
  /\
  (Exists (fun x => (x >= tt_)%dbl = true) col ->
   ActiveLayerAverageTempEvaluator.EvaluateField_ e S result
     = Ok (<["cell" :=
               (ActiveLayerAverageTempEvaluator.mean_of
                  (ActiveLayerAverageTempEvaluator.qualifying tt_ col) :: rest)
               :: cols]> result)).
Proof.
  intros tt_ Hres Htemp Hcell.
  rewrite (EvaluateField_writes e S result r0 rest cols temp col cols_t Hres Htemp Hcell).
  fold tt_. split.
  - intros Hnone. split; [|reflexivity].
    rewrite column_average_empty by (apply qualifying_nil; exact Hnone).
    reflexivity.
  - intros Hsome.
    rewrite column_average_mean by (apply qualifying_not_nil; exact Hsome).
    reflexivity.
Qed.

Lemma EvaluateField_column_average_witness :
  (ActiveLayerAverageTempEvaluator.EvaluateField_ Scenario.evaluator
     (Scenario.column_state Scenario.frozen) {[ "cell" := [[1%float]] ]}
   = Ok (<["cell" := [[0%float]]]> {[ "cell" := [[1%float]] ]})
   /\ PrimFloat.is_nan 0%float = false)
  /\
  ActiveLayerAverageTempEvaluator.EvaluateField_ Scenario.evaluator
    (Scenario.column_state Scenario.thawed) {[ "cell" := [[1%float]] ]}
  = Ok (<["cell" :=
            [[ActiveLayerAverageTempEvaluator.mean_of
                (ActiveLayerAverageTempEvaluator.qualifying
                   (ActiveLayerAverageTempEvaluator.trans_temp Scenario.evaluator)
                   Scenario.thawed)]]]> {[ "cell" := [[1%float]] ]}).
Proof.
  split.
  - refine (proj1 (EvaluateField_column_average Scenario.evaluator
              (Scenario.column_state Scenario.frozen) {[ "cell" := [[1%float]] ]}
              1%float [] [] {[ "cell" := [Scenario.frozen] ]} Scenario.frozen []
              _ _ _) _).
    + vm_compute. reflexivity.
    + vm_compute. reflexivity.
    + vm_compute. reflexivity.
    + repeat constructor.
  - refine (proj2 (EvaluateField_column_average Scenario.evaluator
              (Scenario.column_state Scenario.thawed) {[ "cell" := [[1%float]] ]}
              1%float [] [] {[ "cell" := [Scenario.thawed] ]} Scenario.thawed []
              _ _ _) _).
    + vm_compute. reflexivity.
    + vm_compute. reflexivity.
    + vm_compute. reflexivity.
    + right. left. reflexivity.
Defined.



(** On the first request with a dependency that has changed the output is
    recomputed twice: once by the base class and once more by the
    override. *)
Example first_request_with_a_changed_dependency :
  let r := ActiveLayerAverageTempEvaluator.HasFieldChanged [true] "pk"
             (Scenario.evaluator, Scenario.column_state Scenario.thawed) in
  fst r = Ok true /\
  ActiveLayerAverageTempEvaluator.recomputations_ (fst (snd r)) = 2%nat.
Proof. split; vm_compute; reflexivity. Qed.

(** C9: the linear relative permeability returns the saturation itself and
    its derivative capability returns 1.0, in binary64 and in exact
    arithmetic alike; over the reals the latter is the derivative of the
    former at every saturation. *)
Theorem linear_relperm_derivative :
  (forall s : float,
     WRMLinearRelPerm.k_relative s = s /\ WRMLinearRelPerm.d_k_relative s = 1%float)
  /\
  (forall s : R,
     WRMLinearRelPerm.k_relative s = s /\ WRMLinearRelPerm.d_k_relative s = 1%R /\
     derivable_pt_lim WRMLinearRelPerm.k_relative s (WRMLinearRelPerm.d_k_relative s)).
Proof.
  split.
  - intros s. split; reflexivity.
  - intros s. split; [reflexivity|]. split; [reflexivity|].
    exact (derivable_pt_lim_id s).
Qed.

(** C10 (the claim fails at infinite parameters): with alphaL_ = +infinity
    and alphaT_ = -infinity the parameters are opposite and nonzero, their
    sum is NaN, NaN != 0.0 holds, and the model is reported valid. *)
Lemma is_valid_infinite_opposites :
  let m := MDM_Bear.mk infinity neg_infinity in
  (MDM_Bear.alphaL_ m == PrimFloat.opp (MDM_Bear.alphaT_ m))%dbl = true /\
  (MDM_Bear.alphaL_ m != 0%float)%dbl = true /\
  (MDM_Bear.alphaT_ m != 0%float)%dbl = true /\
  MDM_Bear.is_valid m = true.
Proof. repeat split; reflexivity. Qed.

(** C10 (amended): is_valid returns true exactly when
    alphaL_ + alphaT_ != 0.0; in particular, when alphaL_ is finite, equal
    to -alphaT_ and both are nonzero, the model is reported invalid. *)
Theorem is_valid_sum_nonzero (m : MDM_Bear.t float) :
  (MDM_Bear.is_valid m = true <->
   (MDM_Bear.alphaL_ m + MDM_Bear.alphaT_ m != 0%float)%dbl = true)
  /\
  (PrimFloat.is_finite (MDM_Bear.alphaL_ m) = true ->
   (MDM_Bear.alphaL_ m == PrimFloat.opp (MDM_Bear.alphaT_ m))%dbl = true ->
   (MDM_Bear.alphaL_ m != 0%float)%dbl = true ->
   (MDM_Bear.alphaT_ m != 0%float)%dbl = true ->
   MDM_Bear.is_valid m = false).
Proof.
  split; [reflexivity|].
  intros Hfin Hopp HL _. unfold MDM_Bear.is_valid.
  change (@s_zero float _) with 0%float.
  apply negb_true_iff in HL.
  cbn [s_eqb s_add float_Scalar] in *.
  rewrite (float_add_cancels _ _ Hfin Hopp HL). reflexivity.
Qed.

Lemma is_valid_sum_nonzero_witness :
  MDM_Bear.is_valid (MDM_Bear.mk 2.5%float (-2.5)%float) = false.
Proof.
  refine (proj2 (is_valid_sum_nonzero (MDM_Bear.mk 2.5%float (-2.5)%float)) _ _ _ _);
    reflexivity.
Defined.

(** ** Running a method step by step *)

Lemma bind_inv {St A B} (c : M St A) (f : A -> M St B) (s s' : St) (r : Outcome B) :
  bind c f s = (r, s') ->
  (exists a s1, c s = (Ok a, s1) /\ f a s1 = (r, s'))
  \/ (exists e, c s = (Throw e, s') /\ r = Throw e).
Proof.
  unfold bind. destruct (c s) as [[a|e] s1]; intros E.
  - left. eauto.
  - right. injection E as <- <-. eauto.
Qed.

Section Stable.
Context {St : Type} (R : St -> St -> Prop) `{!PreOrder R}.

Lemma stable_ret {A} (a : A) : stable R (ret a).
Proof. intros m r m' [= <- <-]. reflexivity. Qed.

Lemma stable_throw {A} e : stable R (@throw St A e).
Proof. intros m r m' [= <- <-]. reflexivity. Qed.

Lemma stable_get : stable R get.
Proof. intros m r m' [= <- <-]. reflexivity. Qed.

Lemma stable_lift {A} (o : Outcome A) : stable R (lift o).
Proof. intros m r m' [= <- <-]. reflexivity. Qed.

Lemma stable_modify (f : St -> St) : (forall s, R s (f s)) -> stable R (modify f).
Proof. intros Hf m r m' [= <- <-]. apply Hf. Qed.

Lemma stable_bind {A B} (c : M St A) (f : A -> M St B) :
  stable R c -> (forall a, stable R (f a)) -> stable R (bind c f).
Proof.
  intros Hc Hf m r m' E.
  apply bind_inv in E as [(a & m1 & E1 & E2)|(e & E1 & _)].
  - transitivity m1; [eapply Hc|eapply Hf]; eassumption.
  - eapply Hc; eassumption.
Qed.

Lemma stable_for_each {A} (l : list A) (body : A -> M St unit) :
  (forall x, stable R (body x)) -> stable R (for_each l body).
Proof.
  intros Hb. induction l as [|x l IH]; cbn [for_each].
  - apply stable_ret.
  - apply stable_bind; auto.
Qed.
End Stable.

Ltac preorder :=
  lazymatch goal with
  | |- PreOrder _ => typeclasses eauto
  | |- _ => idtac
  end.

Ltac stable_step frame :=
  first
    [ apply stable_ret; preorder | apply stable_throw; preorder
    | apply stable_get; preorder | apply stable_lift; preorder
    | apply stable_for_each; preorder; intros ?
    | apply stable_bind; preorder; [|intros ?]
    | match goal with
      | |- stable _ (if ?b then _ else _) => destruct b
      | |- stable _ (match ?x with _ => _ end) => destruct x
      end
    | frame ].

(** ** The MPC: what its steps leave as it is *)

Ltac mpc_run :=
  unfold bind, ret, throw, get, modify, lift, MPCCoupledCells.on_plist,
    MPCCoupledCells.the_mesh;
  cbv beta iota delta
    [MPCCoupledCells.plist_ MPCCoupledCells.name_ MPCCoupledCells.vo_
     MPCCoupledCells.out_ MPCCoupledCells.verbosity_ MPCCoupledCells.S_next_
     MPCCoupledCells.sub_pks_ MPCCoupledCells.decoupled_ MPCCoupledCells.A_key_
     MPCCoupledCells.B_key_ MPCCoupledCells.y1_key_ MPCCoupledCells.y2_key_
     MPCCoupledCells.dA_dy2_key_ MPCCoupledCells.dB_dy1_key_ MPCCoupledCells.mesh_
     MPCCoupledCells.dc_ MPCCoupledCells.dcvo_ MPCCoupledCells.mfd_preconditioner_
     MPCCoupledCells.linsolve_preconditioner_ MPCCoupledCells.cout_
     MPCCoupledCells.calls_
     MPCCoupledCells.set_plist_ MPCCoupledCells.set_out_ MPCCoupledCells.set_S_next_
     MPCCoupledCells.set_sub_pks_ MPCCoupledCells.set_decoupled_
     MPCCoupledCells.set_A_key_ MPCCoupledCells.set_B_key_ MPCCoupledCells.set_y1_key_
     MPCCoupledCells.set_y2_key_ MPCCoupledCells.set_dA_dy2_key_
     MPCCoupledCells.set_dB_dy1_key_ MPCCoupledCells.set_mesh_ MPCCoupledCells.set_dc_
     MPCCoupledCells.set_dcvo_ MPCCoupledCells.set_mfd_preconditioner_
     MPCCoupledCells.set_linsolve_preconditioner_ MPCCoupledCells.set_cout_
     MPCCoupledCells.set_calls_ MPCCoupledCells.keys fst snd].

Ltac mpc_projections_in_hyps :=
  cbv beta iota delta
    [MPCCoupledCells.plist_ MPCCoupledCells.name_ MPCCoupledCells.vo_
     MPCCoupledCells.out_ MPCCoupledCells.verbosity_ MPCCoupledCells.S_next_
     MPCCoupledCells.sub_pks_ MPCCoupledCells.decoupled_ MPCCoupledCells.A_key_
     MPCCoupledCells.B_key_ MPCCoupledCells.y1_key_ MPCCoupledCells.y2_key_
     MPCCoupledCells.dA_dy2_key_ MPCCoupledCells.dB_dy1_key_ MPCCoupledCells.mesh_
     MPCCoupledCells.dc_ MPCCoupledCells.dcvo_ MPCCoupledCells.mfd_preconditioner_
     MPCCoupledCells.linsolve_preconditioner_ MPCCoupledCells.cout_
     MPCCoupledCells.calls_] in *.

Ltac mpc_flat_in E :=
  cbv beta iota delta
    [MPCCoupledCells.plist_ MPCCoupledCells.name_ MPCCoupledCells.vo_
     MPCCoupledCells.out_ MPCCoupledCells.verbosity_ MPCCoupledCells.S_next_
     MPCCoupledCells.sub_pks_ MPCCoupledCells.decoupled_ MPCCoupledCells.A_key_
     MPCCoupledCells.B_key_ MPCCoupledCells.y1_key_ MPCCoupledCells.y2_key_
     MPCCoupledCells.dA_dy2_key_ MPCCoupledCells.dB_dy1_key_ MPCCoupledCells.mesh_
     MPCCoupledCells.dc_ MPCCoupledCells.dcvo_ MPCCoupledCells.mfd_preconditioner_
     MPCCoupledCells.linsolve_preconditioner_ MPCCoupledCells.cout_
     MPCCoupledCells.calls_
     MPCCoupledCells.set_plist_ MPCCoupledCells.set_out_ MPCCoupledCells.set_S_next_
     MPCCoupledCells.set_sub_pks_ MPCCoupledCells.set_decoupled_
     MPCCoupledCells.set_A_key_ MPCCoupledCells.set_B_key_ MPCCoupledCells.set_y1_key_
     MPCCoupledCells.set_y2_key_ MPCCoupledCells.set_dA_dy2_key_
     MPCCoupledCells.set_dB_dy1_key_ MPCCoupledCells.set_mesh_ MPCCoupledCells.set_dc_
     MPCCoupledCells.set_dcvo_ MPCCoupledCells.set_mfd_preconditioner_
     MPCCoupledCells.set_linsolve_preconditioner_ MPCCoupledCells.set_cout_
     MPCCoupledCells.set_calls_ MPCCoupledCells.keys] in E.

Section Frames.
Import MPCCoupledCells.
Context {T : Type} `{Scalar T} `{Collaborators T}.

#[export] Instance extends_preorder (P : Call T -> Prop) : PreOrder (extends P).
Proof.
  split.
  - intros m. split; [reflexivity|]. exists []. now rewrite app_nil_r.
  - intros m1 m2 m3 [E1 (cs1 & C1 & F1)] [E2 (cs2 & C2 & F2)].
    split; [congruence|].
    exists (cs1 ++ cs2)%list. rewrite C2, C1, app_assoc. split; [reflexivity|].
    apply Forall_app; auto.
Qed.

#[export] Instance same_keys_preorder : PreOrder same_keys.
Proof.
  split.
  - intros m. reflexivity.
  - intros m1 m2 m3 E1 E2. unfold same_keys in *. congruence.
Qed.

Lemma stable_print (R : t -> t -> Prop) `{!PreOrder R} items :
  (forall o m, R m (set_out_ o m)) -> stable R (print items).
Proof.
  intros HR m r m' E. unfold print in E.
  destruct (out_ m); injection E as <- <-; [apply HR|reflexivity].
Qed.

Lemma stable_on_mfd (R : t -> t -> Prop) `{!PreOrder R} f :
  (forall pc m, R m (set_mfd_preconditioner_ pc m)) -> stable R (on_mfd f).
Proof.
  intros HR m r m' E. unfold on_mfd in E.
  destruct (mfd_preconditioner_ m) as [pc|]; [|injection E as <- <-; reflexivity].
  destruct (f pc); injection E as <- <-; [apply HR|reflexivity].
Qed.

Lemma stable_on_plist (R : t -> t -> Prop) {A} (c : M ParameterList A) :
  (forall pl m, R m (set_plist_ pl m)) -> stable R (on_plist c).
Proof.
  intros HR m r m' E. unfold on_plist in E.
  destruct (c (plist_ m)); injection E as <- <-. apply HR.
Qed.

Lemma stable_the_mesh (R : t -> t -> Prop) `{!PreOrder R} : stable R the_mesh.
Proof.
  intros m r m' E. unfold the_mesh in E.
  destruct (mesh_ m); injection E as <- <-; reflexivity.
Qed.

Lemma stable_record (P : Call T -> Prop) c : P c -> stable (extends P) (record c).
Proof.
  intros Hc m r m' [= <- <-]. destruct m. split; [reflexivity|].
  exists [c]. split; [reflexivity|]. repeat constructor. exact Hc.
Qed.

End Frames.

(** A step that writes none of the fields a relation looks at. *)
Ltac untouched :=
  match goal with
  | |- MPCCoupledCells.extends _ ?m _ =>
      destruct m; split; [reflexivity|]; exists []; now rewrite app_nil_r
  | |- MPCCoupledCells.same_keys ?m _ => destruct m; reflexivity
  end.

Ltac frame :=
  first
    [ apply stable_the_mesh; preorder
    | apply stable_print; preorder; intros ? ?; untouched
    | apply stable_on_mfd; preorder; intros ? ?; untouched
    | apply stable_on_plist; intros ? ?; untouched
    | apply stable_record; solve [auto]
    | apply stable_modify; intros ?; untouched ].

Ltac stable_steps := repeat (stable_step frame).

Section Frames2.
Import MPCCoupledCells.
Context {T : Type} `{Scalar T} `{Collaborators T}.

Lemma stable_GetFieldData (P : Call T -> Prop) key :
  P (Call_GetFieldData key) -> stable (extends P) (S_next_GetFieldData key).
Proof. intros Hc. unfold S_next_GetFieldData. stable_steps. Qed.

Lemma stable_diagnostics (P : Call T -> Prop) Ccc Dcc :
  (forall key, P (Call_GetFieldData key)) ->
  stable (extends P) (update_precon_diagnostics Ccc Dcc).
Proof.
  intros HP. unfold update_precon_diagnostics.
  assert (forall key, stable (extends P) (S_next_GetFieldData key))
    by (intros; apply stable_GetFieldData; auto).
  stable_steps; auto.
Qed.

(** The part of update_off_diagonals after the two vectors are scaled. *)
Lemma stable_install (P : Call T -> Prop) (Ccc Dcc : Epetra_MultiVector T) :
  (forall c, not_SetOffDiagonals c -> P c) ->
  stable (extends P)
    (on_mfd (fun pc => Ok (SetOffDiagonals Ccc Dcc pc)) ;;
     m <- get ;;
     (if in_dump_window (S_next_ m) then
        modify (fun m => set_cout_ (cout_ m ++ ["DUMPING SCHUR!"])%list m) ;;
        record (Call_ComputeSchurComplement true) ;;
        on_mfd (ComputeSchurComplement true (sub_pks_ m))
      else
        record (Call_ComputeSchurComplement false) ;;
        on_mfd (ComputeSchurComplement false (sub_pks_ m))) ;;
     record Call_UpdatePreconditioner ;;
     on_mfd (UpdatePreconditioner (sub_pks_ m)))%cxx.
Proof.
  intros HP.
  assert (P (Call_ComputeSchurComplement true)) by (apply HP; discriminate).
  assert (P (Call_ComputeSchurComplement false)) by (apply HP; discriminate).
  assert (P Call_UpdatePreconditioner) by (apply HP; discriminate).
  stable_steps.
Qed.


End Frames2.

(** ** The MPC: setup *)

Section Setup.
Import MPCCoupledCells.
Context {T : Type} `{Collaborators T}.

Lemma push_back_all (dc : list Z) (m : t) :
  for_each dc dc_push_back m = (Ok tt, set_dc_ (dc_ m ++ dc)%list m).
Proof.
  revert m. induction dc as [|c dc IH]; intros m.
  - destruct m. mpc_run. rewrite app_nil_r. reflexivity.
  - cbn [for_each]. unfold bind at 1, dc_push_back at 1, modify at 1. rewrite IH.
    destruct m. mpc_run. rewrite <- app_assoc. reflexivity.
Qed.

Lemma verbose_object_made (r : Z) (m : t) (mesh : Mesh) :
  mesh_ m = Some mesh ->
  absent_or_sublist "VerboseObject" (plist_ m) = true ->
  exists pl vo,
    make_debug_verbose_object r m
    = (Ok tt, set_dcvo_ (dcvo_ m ++ [vo])%list (set_plist_ pl m)) /\
    absent_or_sublist "VerboseObject" pl = true.
Proof.
  intros Hmesh Hvo. unfold make_debug_verbose_object, sublist, absent_or_sublist in *.
  destruct m. mpc_projections_in_hyps. mpc_run.
  destruct (plist_0 !! "VerboseObject") as [[| | | |l]|] eqn:E; try discriminate.
  - mpc_run. rewrite Hmesh. eexists _, _. split; [reflexivity|]. now rewrite E.
  - mpc_run. rewrite Hmesh. eexists _, _. split; [reflexivity|].
    now rewrite lookup_insert_eq.
Qed.

Lemma verbose_objects_made (dcr : list Z) (m : t) (mesh : Mesh) :
  mesh_ m = Some mesh ->
  absent_or_sublist "VerboseObject" (plist_ m) = true ->
  exists pl vos,
    for_each dcr make_debug_verbose_object m
    = (Ok tt, set_dcvo_ (dcvo_ m ++ vos)%list (set_plist_ pl m)) /\
    length vos = length dcr.
Proof.
  revert m. induction dcr as [|r dcr IH]; intros m Hmesh Hvo.
  - exists (plist_ m), []. destruct m. mpc_run. rewrite app_nil_r. auto.
  - cbn [for_each]. unfold bind at 1.
    destruct (verbose_object_made r m mesh Hmesh Hvo) as (pl1 & vo & -> & Hvo1).
    destruct (IH (set_dcvo_ (dcvo_ m ++ [vo])%list (set_plist_ pl1 m)))
      as (pl & vos & -> & Hlen).
    + destruct m. exact Hmesh.
    + destruct m. exact Hvo1.
    + exists pl, (vo :: vos). destruct m. mpc_run. rewrite <- app_assoc.
      split; [reflexivity|]. cbn. now rewrite Hlen.
Qed.

Lemma setup_keys_run (S1 : State T) (m : t) (A B y1 y2 mesh_key : string)
    (mesh : Mesh) :
  absent_or_bool "decoupled" (plist_ m) = true ->
  plist_ m !! "conserved quantity A" = Some (PString A) ->
  plist_ m !! "conserved quantity B" = Some (PString B) ->
  plist_ m !! "primary variable A" = Some (PString y1) ->
  plist_ m !! "primary variable B" = Some (PString y2) ->
  plist_ m !! "mesh key" = Some (PString mesh_key) ->
  GetMesh S1 mesh_key = Ok mesh ->
  exists d pl,
    setup_keys S1 m
    = (Ok tt,
       set_mesh_ (Some mesh)
         (set_dB_dy1_key_ ("d" ++ B ++ "_d" ++ y1)
            (set_dA_dy2_key_ ("d" ++ A ++ "_d" ++ y2)
               (set_y2_key_ y2 (set_y1_key_ y1 (set_B_key_ B (set_A_key_ A
                  (set_decoupled_ d (set_plist_ pl m)))))))))
    /\ (forall name, name <> "decoupled" -> pl !! name = plist_ m !! name).
Proof.
  intros Hd HA HB Hy1 Hy2 Hmk Hmesh. destruct m.
  unfold setup_keys, get_bool_default, get_string, absent_or_bool in *. mpc_run.
  mpc_projections_in_hyps.
  destruct (plist_0 !! "decoupled") as [[b| | | |]|] eqn:E; try discriminate.
  - mpc_run. rewrite HA. mpc_run. rewrite HB. mpc_run. rewrite Hy1. mpc_run.
    rewrite Hy2. mpc_run. rewrite Hmk. mpc_run. rewrite Hmesh.
    exists b, plist_0. split; [mpc_run; reflexivity|reflexivity].
  - mpc_run. rewrite lookup_insert_ne by discriminate. rewrite HA. mpc_run.
    rewrite lookup_insert_ne by discriminate. rewrite HB. mpc_run.
    rewrite lookup_insert_ne by discriminate. rewrite Hy1. mpc_run.
    rewrite lookup_insert_ne by discriminate. rewrite Hy2. mpc_run.
    rewrite lookup_insert_ne by discriminate. rewrite Hmk. mpc_run. rewrite Hmesh.
    exists false, (<["decoupled" := PBool false]> plist_0).
    split; [mpc_run; reflexivity|].
    intros name Hne. rewrite lookup_insert_ne by congruence. reflexivity.
Qed.




End Setup.

(** ** The MPC: update_precon and precon *)

Section UpdatePrecon.
Import MPCCoupledCells.
Context {T : Type} `{Scalar T} `{Collaborators T}.

Lemma base_update_precon_inv t_ up h (m m' : t) r :
  base_update_precon t_ up h m = (r, m') ->
  exists S' pks, m' = set_sub_pks_ pks (set_S_next_ S' m).
Proof.
  unfold base_update_precon.
  destruct (StrongMPC_update_precon t_ up h (S_next_ m) (sub_pks_ m)) as [[S' pks]|e];
    intros [= <- <-].
  - eauto.
  - exists (S_next_ m), (sub_pks_ m). destruct m. reflexivity.
Qed.

Lemma HasFieldDerivativeChanged_inv key wrt (m m' : t) r :
  S_next_HasFieldDerivativeChanged key wrt m = (r, m') ->
  exists S',
    m' = set_S_next_ S'
           (set_calls_
              (calls_ m ++ [Call_HasFieldDerivativeChanged key (name_ m) wrt])%list m).
Proof.
  unfold S_next_HasFieldDerivativeChanged. destruct m. mpc_run.
  destruct (HasFieldDerivativeChanged key name_0 wrt S_next_0) as [[b S']|e];
    intros [= <- <-]; eauto.
Qed.

Lemma GetFieldData_inv key (m m' : t) v :
  S_next_GetFieldData key m = (Ok v, m') ->
  GetFieldData (S_next_ m) key = Ok v /\
  m' = set_calls_ (calls_ m ++ [Call_GetFieldData key])%list m.
Proof.
  unfold S_next_GetFieldData, record. destruct m. mpc_run.
  destruct (GetFieldData S_next_0 key); intros [= <- <-]. auto.
Qed.

Lemma S_next_set_calls_ (cs : list (Call T)) (m : t) :
  S_next_ (set_calls_ cs m) = S_next_ m.
Proof. destruct m. reflexivity. Qed.

Lemma installed_blocks_app (m : t) (cs : list (Call T)) :
  installed_blocks (set_calls_ (calls_ m ++ cs)%list m)
  = (installed_blocks m
     ++ omap (fun c => match c with
                       | Call_SetOffDiagonals Ccc Dcc => Some (Ccc, Dcc)
                       | _ => None
                       end) cs)%list.
Proof. destruct m. unfold installed_blocks. mpc_run. apply omap_app. Qed.

Lemma installed_blocks_extends (m m' : t) :
  extends not_SetOffDiagonals m m' -> installed_blocks m' = installed_blocks m.
Proof.
  intros [_ (cs & E & Hcs)]. unfold installed_blocks. rewrite E, omap_app.
  rewrite <- (app_nil_r (omap _ (calls_ m))) at 2. f_equal. clear E.
  induction Hcs as [|c cs Hc _ IH]; [reflexivity|].
  cbn. destruct c; try exact IH. exfalso. eapply Hc. reflexivity.
Qed.

(** In decoupled mode update_precon is the update of the base class. *)
Lemma update_precon_decoupled t_ up h (m : t) :
  decoupled_ m = true ->
  update_precon t_ up h m = base_update_precon t_ up h m.
Proof.
  intros Ed. unfold update_precon, bind.
  destruct (base_update_precon t_ up h m) as [[[]|e] m1] eqn:E; [|reflexivity].
  apply base_update_precon_inv in E as (S' & pks & ->).
  destruct m. mpc_run. mpc_flat_in Ed. rewrite Ed. reflexivity.
Qed.

(** In decoupled mode precon is the precon of the base class. *)
Lemma precon_decoupled (u Pu : TreeVector T) (m : t) :
  decoupled_ m = true ->
  precon u Pu m = (StrongMPC_precon (sub_pks_ m) u Pu, m).
Proof. intros Ed. unfold precon, bind, get, lift. rewrite Ed. reflexivity. Qed.


(** What a successful update_precon hands to SetOffDiagonals. *)
Lemma update_precon_installs t_ up h (m m' : t) :
  decoupled_ m = false ->
  update_precon t_ up h m = (Ok tt, m') ->
  exists dA dB rawC rawD,
    GetFieldData (S_next_ m') (dA_dy2_key_ m) = Ok dA /\
    ViewComponent dA "cell" = Ok rawC /\
    GetFieldData (S_next_ m') (dB_dy1_key_ m) = Ok dB /\
    ViewComponent dB "cell" = Ok rawD /\
    installed_blocks m'
    = (installed_blocks m
       ++ [(Scale (s_one / h)%dbl rawC, Scale (s_one / h)%dbl rawD)])%list.
Proof.
  intros Ed E. unfold update_precon in E.
  apply bind_inv in E as [(u & m1 & E1 & E)|(e & _ & [=])].
  apply base_update_precon_inv in E1 as (S' & pks & ->).
  apply bind_inv in E as [(m1 & m2 & [= <- <-] & E)|(e & [=] & _)].
  destruct m. mpc_flat_in Ed. mpc_flat_in E. rewrite Ed in E.
  cbn [negb] in E. unfold update_off_diagonals in E.
  apply bind_inv in E as [(m1 & m2 & [= <- <-] & E)|(e & [=] & _)].
  mpc_flat_in E.
  apply bind_inv in E as [(u1 & m2 & E1 & E)|(e & _ & [=])].
  apply HasFieldDerivativeChanged_inv in E1 as (S2 & ->). mpc_flat_in E.
  apply bind_inv in E as [(u2 & m3 & E1 & E)|(e & _ & [=])].
  apply HasFieldDerivativeChanged_inv in E1 as (S3 & ->). mpc_flat_in E.
  apply bind_inv in E as [(dA & m4 & E1 & E)|(e & _ & [=])].
  apply GetFieldData_inv in E1 as (HdA & ->). mpc_flat_in HdA. mpc_flat_in E.
  apply bind_inv in E as [(dB & m5 & E1 & E)|(e & _ & [=])].
  apply GetFieldData_inv in E1 as (HdB & ->). mpc_flat_in HdB. mpc_flat_in E.
  apply bind_inv in E as [(rawC & m6 & E1 & E)|(e & _ & [=])].
  injection E1 as HC <-.
  apply bind_inv in E as [(rawD & m6 & E1 & E)|(e & _ & [=])].
  injection E1 as HD <-.
  apply bind_inv in E as [(u3 & m6 & E1 & E)|(e & _ & [=])].
  apply (stable_diagnostics not_SetOffDiagonals) in E1; [|discriminate].
  cbv zeta in E.
  apply bind_inv in E as [(u4 & m7 & [= <- <-] & E)|(e & _ & [=])].
  apply (stable_install not_SetOffDiagonals) in E; [|auto].
  exists dA, dB, rawC, rawD.
  destruct E as [ES E], E1 as [ES1 E1]. cbv beta in ES, E.
  assert (S_next_ m' = S3) as ->.
  { rewrite ES, S_next_set_calls_, ES1. reflexivity. }
  split; [exact HdA|]. split; [exact HC|].
  split; [exact HdB|]. split; [exact HD|].
  rewrite (installed_blocks_extends _ _ (conj ES E)).
  rewrite installed_blocks_app.
  rewrite (installed_blocks_extends _ _ (conj ES1 E1)).
  unfold installed_blocks. mpc_run. rewrite !omap_app. cbn [omap].
  rewrite !app_nil_r. reflexivity.
Qed.
End UpdatePrecon.

(** ** The claims on the MPC *)

Import MPCCoupledCells.

(** C2 (the claim fails in binary64): in the scenario of section 8 of the
    specification, update_precon with h = 10 succeeds and installs
    0.1 * (1/10) and 0.2 * (1/10), which are not the doubles 0.1/10 and
    0.2/10. *)
Lemma update_precon_scaling_is_not_division :
  let r := update_precon 0%float [] 10%float
             (Scenario.ready None VERB_NONE Scenario.S0) in
  fst r = Ok tt /\
  installed_blocks (snd r)
  <> [(map (map (fun x => (x / 10)%float)) [[0.1; 0.1; 0.1]]%float,
       map (map (fun x => (x / 10)%float)) [[0.2; 0.2; 0.2]]%float)].
Proof.
  split; [vm_compute; reflexivity|]. intros E.
  assert (E' : match installed_blocks
                       (snd (update_precon 0%float [] 10%float
                               (Scenario.ready None VERB_NONE Scenario.S0))) with
               | [((x :: _) :: _, _)] => PrimFloat.eqb x (0.1 / 10)%float
               | _ => false
               end = true) by (rewrite E; reflexivity).
  vm_compute in E'. discriminate.
Qed.

(** C2 (amended): a successful update_precon(t, up, h) in coupled mode
    hands to SetOffDiagonals the cell values of the two derivative Fields,
    each multiplied by the double 1./h.  In exact arithmetic, for h > 0,
    that is the value divided by h, and with 2h in place of h it is half
    of it. *)
Theorem update_precon_scales_by_reciprocal :
  (forall (T : Type) (HS : Scalar T) (HC : Collaborators T)
          (t_ : T) (up : TreeVector T) (h : T) (m m' : t),
     decoupled_ m = false ->
     update_precon t_ up h m = (Ok tt, m') ->
     exists dA dB rawC rawD,
       GetFieldData (S_next_ m') (dA_dy2_key_ m) = Ok dA /\
       ViewComponent dA "cell" = Ok rawC /\
       GetFieldData (S_next_ m') (dB_dy1_key_ m) = Ok dB /\
       ViewComponent dB "cell" = Ok rawD /\
       installed_blocks m'
       = (installed_blocks m
          ++ [(Scale (s_one / h)%dbl rawC, Scale (s_one / h)%dbl rawD)])%list)
  /\
  (forall (h : R) (raw : Epetra_MultiVector R),
     (0 < h)%R ->
     Scale (s_one / h)%dbl raw = map (map (fun x => (x / h)%R)) raw /\
     Scale (s_one / (s_of_int 2 * h))%dbl raw
     = map (map (fun x => (x / 2)%R)) (Scale (s_one / h)%dbl raw)).
Proof.
  split.
  - intros T HS HC. apply update_precon_installs.
  - intros h raw Hh. unfold Scale. split.
    + apply map_ext. intros col. apply map_ext. intros x.
      cbn. field. lra.
    + rewrite map_map. apply map_ext. intros col.
      rewrite map_map. apply map_ext. intros x. cbn. field. lra.
Qed.

Lemma update_precon_scales_by_reciprocal_witness :
  let m := Scenario.ready None VERB_NONE Scenario.S0 in
  let m' := snd (update_precon 0%float [] 10%float m) in
  (exists dA dB rawC rawD,
     GetFieldData (S_next_ m') (dA_dy2_key_ m) = Ok dA /\
     ViewComponent dA "cell" = Ok rawC /\
     GetFieldData (S_next_ m') (dB_dy1_key_ m) = Ok dB /\
     ViewComponent dB "cell" = Ok rawD /\
     installed_blocks m'
     = (installed_blocks m
        ++ [(Scale (s_one / 10%float)%dbl rawC,
             Scale (s_one / 10%float)%dbl rawD)])%list)
  /\
  (Scale (s_one / 10%R)%dbl [[1%R; 3%R]] = map (map (fun x => (x / 10)%R)) [[1%R; 3%R]] /\
   Scale (s_one / (s_of_int 2 * 10%R))%dbl [[1%R; 3%R]]
   = map (map (fun x => (x / 2)%R)) (Scale (s_one / 10%R)%dbl [[1%R; 3%R]])).
Proof.
  intros m m'. split.
  - apply (proj1 update_precon_scales_by_reciprocal float _ _ 0%float [] 10%float m m').
    + vm_compute. reflexivity.
    + vm_compute. reflexivity.
  - apply (proj2 update_precon_scales_by_reciprocal 10%R [[1%R; 3%R]]). lra.
Defined.

(** C6: when the configuration has both "debug cells" and "debug cell
    ranks" and the two arrays differ in length, setup throws the
    Errors::Message "Debug cell and debug cell ranks must be equal length."
    and leaves the preconditioner and its solver unbuilt; when they have
    the same length the check passes: the debug cells and one verbose
    object per rank are recorded and setup goes on to build the
    preconditioner.  (The entries read before are taken to be there.) *)
Theorem setup_checks_debug_cell_ranks
    (T : Type) (HC : Collaborators T) (S S1 : State T) (m : t) (pks1 : SubPKs)
    (A B y1 y2 mesh_key : string) (mesh : Mesh) (dc dcr : list Z) :
  StrongMPC_setup S (sub_pks_ m) = Ok (S1, pks1) ->
  absent_or_bool "decoupled" (plist_ m) = true ->
  plist_ m !! "conserved quantity A" = Some (PString A) ->
  plist_ m !! "conserved quantity B" = Some (PString B) ->
  plist_ m !! "primary variable A" = Some (PString y1) ->
  plist_ m !! "primary variable B" = Some (PString y2) ->
  plist_ m !! "mesh key" = Some (PString mesh_key) ->
  GetMesh S1 mesh_key = Ok mesh ->
  absent_or_sublist "VerboseObject" (plist_ m) = true ->
  plist_ m !! "debug cells" = Some (PArrayInt dc) ->
  plist_ m !! "debug cell ranks" = Some (PArrayInt dcr) ->
  (length dc <> length dcr ->
   exists m',
     setup S m = (Throw (Errors_Message debug_length_message), m') /\
     mfd_preconditioner_ m' = mfd_preconditioner_ m /\
     linsolve_preconditioner_ m' = linsolve_preconditioner_ m /\
     dcvo_ m' = dcvo_ m)
  /\
  (length dc = length dcr ->
   exists m2,
     setup S m = (setup_precon ;; ret S1)%cxx m2 /\
     dc_ m2 = dc /\
     length (dcvo_ m2) = (length (dcvo_ m) + length dcr)%nat).
Proof.
  intros Hbase Hd HA HB Hy1 Hy2 Hmk Hmesh Hvo Hdc Hdcr.
  assert (Hkeys := fun m1 (E : plist_ m1 = plist_ m) =>
    setup_keys_run S1 m1 A B y1 y2 mesh_key mesh
      (eq_ind_r (fun p => absent_or_bool "decoupled" p = true) Hd E)
      (eq_ind_r (fun p => p !! "conserved quantity A" = _) HA E)
      (eq_ind_r (fun p => p !! "conserved quantity B" = _) HB E)
      (eq_ind_r (fun p => p !! "primary variable A" = _) Hy1 E)
      (eq_ind_r (fun p => p !! "primary variable B" = _) Hy2 E)
      (eq_ind_r (fun p => p !! "mesh key" = _) Hmk E) Hmesh).
  destruct m. mpc_projections_in_hyps.
  unfold setup, base_setup. mpc_run. rewrite Hbase.
  match goal with |- context [setup_keys S1 ?m1] =>
    destruct (Hkeys m1 eq_refl) as (d & pl & -> & Hpl) end.
  clear Hkeys. mpc_run.
  unfold setup_debug_cells, isParameter, get_array_int. mpc_run.
  repeat (first [ rewrite Hpl by discriminate | rewrite Hdc | rewrite Hdcr
                | rewrite push_back_all ]; mpc_run).
  split.
  - intros Hne. apply Nat.eqb_neq in Hne. rewrite Hne. cbn [negb].
    eexists. split; [reflexivity|]. mpc_run. auto.
  - intros Heq. apply Nat.eqb_eq in Heq. rewrite Heq. cbn [negb].
    match goal with |- context [for_each dcr make_debug_verbose_object ?m1] =>
      destruct (verbose_objects_made dcr m1 mesh) as (pl' & vos & -> & Hlen) end.
    + reflexivity.
    + mpc_run. unfold absent_or_sublist in *. rewrite Hpl by discriminate. exact Hvo.
    + mpc_run. eexists. split; [reflexivity|]. mpc_run. rewrite length_app, Hlen. auto.
Qed.

Lemma setup_checks_debug_cell_ranks_witness :
  let unequal := Scenario.constructed (Scenario.plist [0]) None VERB_NONE Scenario.S0 in
  let equal := Scenario.constructed (Scenario.plist [0; 0]) None VERB_NONE Scenario.S0 in
  (exists m',
     setup Scenario.S0 unequal = (Throw (Errors_Message debug_length_message), m') /\
     mfd_preconditioner_ m' = mfd_preconditioner_ unequal /\
     linsolve_preconditioner_ m' = linsolve_preconditioner_ unequal /\
     dcvo_ m' = dcvo_ unequal)
  /\
  (exists m2,
     setup Scenario.S0 equal = (setup_precon ;; ret Scenario.S0)%cxx m2 /\
     dc_ m2 = [0; 2] /\
     length (dcvo_ m2) = (length (dcvo_ equal) + length [0; 0])%nat).
Proof.
  intros unequal equal. split.
  - refine (proj1 (setup_checks_debug_cell_ranks float _ Scenario.S0 Scenario.S0
              unequal tt "water_content" "energy" "pressure" "temperature" "domain" tt
              [0; 2] [0] _ _ _ _ _ _ _ _ _ _ _) _);
      try (vm_compute; reflexivity).
    cbn. discriminate.
  - refine (proj2 (setup_checks_debug_cell_ranks float _ Scenario.S0 Scenario.S0
              equal tt "water_content" "energy" "pressure" "temperature" "domain" tt
              [0; 2] [0; 0] _ _ _ _ _ _ _ _ _ _ _) _);
      try (vm_compute; reflexivity).
Defined.

(** C7 (the code at the failing input): on a State without the Field
    "dsaturation_ice_dpressure", update_precon without a diagnostics stream
    installs the off-diagonal blocks, and with the stream at the extreme
    verbosity it throws at the read of that Field and installs nothing. *)
Theorem diagnostics_change_update_precon :
  let quiet := update_precon 0%float [] 10%float
                 (Scenario.ready None VERB_EXTREME Scenario.S0) in
  let verbose := update_precon 0%float [] 10%float
                   (Scenario.ready (Some []) VERB_EXTREME Scenario.S0) in
  fst quiet = Ok tt /\
  length (installed_blocks (snd quiet)) = 1%nat /\
  fst verbose = Throw (UnknownKeyError "dsaturation_ice_dpressure") /\
  installed_blocks (snd verbose) = [] /\
  numerical_results verbose <> numerical_results quiet.
Proof.
  repeat split; try (vm_compute; reflexivity).
  vm_compute. discriminate.
Qed.

(** On the State that holds the two Fields of the ice saturation the
    diagnostics only print: update_precon and precon give the same
    numerical results with the stream and without it. *)
Example diagnostics_print_only_with_ice_fields :
  let quiet := update_precon 0%float [] 10%float
                 (Scenario.ready None VERB_EXTREME Scenario.S_ice) in
  let verbose := update_precon 0%float [] 10%float
                   (Scenario.ready (Some []) VERB_EXTREME Scenario.S_ice) in
  numerical_results verbose = numerical_results quiet /\
  numerical_results (precon Scenario.residual [] (snd verbose))
  = numerical_results (precon Scenario.residual [] (snd quiet)).
Proof. split; vm_compute; reflexivity. Qed.


